(** * repo2prompt: the file-selection and bounded-streaming pipeline

    A shallow embedding of [src/index.ts].  Every exported function of the
    source that the specification talks about is a definition of the same
    name below, and the parts of [main] are [main_maxSize], [main_resolve]
    and [main_write].  The Node runtime facilities they call
    ([String.prototype.trim], [parseInt], [path.extname], the UTF-8 stream
    decoder, the [glob] package, ...) live in the modules [JS], [Path],
    [Utf8] and [Glob].

    Effects are explicit: a computation maps the world (output sink,
    console warnings, progress bar, file-system calls) to a result and a
    new world, and it may return, throw or exit.  The [debugMode]
    parameter of the source only adds console output and is left out. *)

From Stdlib Require Import List String Ascii Bool Arith ZArith NArith Lia.
From Stdlib Require Import Strings.Byte DecimalString.
From Stdlib Require DecimalFacts DecimalNat.
Import ListNotations.

Local Open Scope string_scope.
Local Open Scope list_scope.

(** ** JavaScript strings and numbers

    A JavaScript string is modelled by Rocq's [string]; a character stands
    for one code unit in the range 0..255.  Paths, glob patterns and the
    literal text of the document all live in that range. *)

Module JS.

Definition LF : string := String (ascii_of_nat 10) EmptyString.
Definition LFc : ascii := ascii_of_nat 10.
Definition CRc : ascii := ascii_of_nat 13.

(** Template-literal rendering of a non-negative integer: [`${n}`]. *)
Definition toString (n : nat) : string :=
  NilZero.string_of_uint (Nat.to_uint n).

Definition toStringN (n : N) : string :=
  NilZero.string_of_uint (N.to_uint n).

(** [s.startsWith(c)] for a one-character needle. *)
Definition startsWith (c : ascii) (s : string) : bool :=
  match s with
  | String a _ => Ascii.eqb a c
  | EmptyString => false
  end.

(** [s.slice(1)]. *)
Definition slice1 (s : string) : string :=
  match s with
  | String _ rest => rest
  | EmptyString => EmptyString
  end.

(** Truthiness of a string: only [''] is falsy. *)
Definition truthy (s : string) : bool :=
  match s with
  | EmptyString => false
  | String _ _ => true
  end.

(** White space and line terminators removed by [trim] and skipped by
    [parseInt], as far as they fall in the modelled range: TAB, LF, VT,
    FF, CR, SP and NBSP. *)
Definition isWhiteSpace (c : ascii) : bool :=
  let n := nat_of_ascii c in
  (((9 <=? n) && (n <=? 13)) || (n =? 32) || (n =? 160))%nat.

Fixpoint trimStart (s : string) : string :=
  match s with
  | String c rest => if isWhiteSpace c then trimStart rest else s
  | EmptyString => EmptyString
  end.

Fixpoint trimEnd (s : string) : string :=
  match s with
  | String c rest =>
      let rest' := trimEnd rest in
      if isWhiteSpace c && negb (truthy rest') then EmptyString
      else String c rest'
  | EmptyString => EmptyString
  end.

(** [s.trim()]. *)
Definition trim (s : string) : string := trimEnd (trimStart s).

(** [s.split(/\r?\n/)]: a separator is LF, or CR immediately followed
    by LF.  The result always has at least one element. *)
Fixpoint splitLines (s : string) : list string :=
  match s with
  | EmptyString => [EmptyString]
  | String c rest =>
      if Ascii.eqb c LFc then EmptyString :: splitLines rest
      else if Ascii.eqb c CRc && startsWith LFc rest then splitLines rest
      else match splitLines rest with
           | line :: lines => String c line :: lines
           | [] => [String c EmptyString]
           end
  end.

(** [s.replace(/\//g, '\\')]. *)
Fixpoint slashesToBackslashes (s : string) : string :=
  match s with
  | EmptyString => EmptyString
  | String c rest =>
      String (if Ascii.eqb c "/"%char then "\"%char else c) (slashesToBackslashes rest)
  end.

(** [s.toLowerCase()] on code units 0..255: A-Z and the upper-case
    letters of the Latin-1 block (except the multiplication sign). *)
Definition toLowerChar (c : ascii) : ascii :=
  let n := nat_of_ascii c in
  if (((65 <=? n) && (n <=? 90))
      || ((192 <=? n) && (n <=? 222) && negb (n =? 215)))%nat
  then ascii_of_nat (n + 32) else c.

Fixpoint toLowerCase (s : string) : string :=
  match s with
  | EmptyString => EmptyString
  | String c rest => String (toLowerChar c) (toLowerCase rest)
  end.

(** [parseInt(s, 10)]: leading white space is skipped, an optional sign
    is read, then the longest prefix of decimal digits.  [None] is NaN.
    The digits give an integer, and the result is the double nearest to
    it, the sign put back afterwards. *)
Definition digitValue (c : ascii) : option Z :=
  let n := nat_of_ascii c in
  if ((48 <=? n) && (n <=? 57))%nat then Some (Z.of_nat (n - 48)) else None.

Fixpoint parseDigits (acc : Z) (s : string) : Z :=
  match s with
  | String c rest =>
      match digitValue c with
      | Some d => parseDigits (10 * acc + d) rest
      | None => acc
      end
  | EmptyString => acc
  end.

Definition parseUnsigned (s : string) : option Z :=
  match s with
  | String c _ =>
      match digitValue c with
      | Some _ => Some (parseDigits 0 s)
      | None => None
      end
  | EmptyString => None
  end.

(** The double nearest to a non-negative integer, as an integer: below
    2^53 every integer is a double; above, 53 significant bits are kept
    and the rest is rounded to nearest, ties to the even significand.
    An integer of 2^1024 - 2^970 or more, for which the source has
    Infinity, has no counterpart in [Z] and is rounded like the others:
    such a numeral has 309 digits or more. *)
Definition toDouble (v : Z) : Z :=
  let e := (Z.log2 v - 52)%Z in
  if (e <=? 0)%Z then v
  else
    let q := (v / 2 ^ e)%Z in
    let r := (v mod 2 ^ e)%Z in
    let half := (2 ^ (e - 1))%Z in
    let q' := if (half <? r)%Z || ((r =? half)%Z && Z.odd q) then (q + 1)%Z else q in
    (q' * 2 ^ e)%Z.

Definition parseInt (s : string) : option Z :=
  match trimStart s with
  | String c rest =>
      if Ascii.eqb c "-"%char
      then option_map (fun v => Z.opp (toDouble v)) (parseUnsigned rest)
      else if Ascii.eqb c "+"%char then option_map toDouble (parseUnsigned rest)
      else option_map toDouble (parseUnsigned (String c rest))
  | EmptyString => None
  end.

(** [Array.prototype.forEach((x, index) => ...)] threading the variable
    the callback assigns to. *)
Fixpoint forEachFrom {A St : Type} (f : St -> A -> nat -> St)
         (index : nat) (l : list A) (acc : St) : St :=
  match l with
  | [] => acc
  | x :: rest => forEachFrom f (S index) rest (f acc x index)
  end.

Definition forEach {A St : Type} (f : St -> A -> nat -> St) (l : list A) (acc : St) : St :=
  forEachFrom f 0 l acc.

(** An insertion-ordered [Set<string>]: a list without repetitions,
    oldest element first. *)
Definition Set_has (x : string) (s : list string) : bool :=
  existsb (String.eqb x) s.

Definition Set_add (s : list string) (x : string) : list string :=
  if Set_has x s then s else s ++ [x].

Definition Set_new (l : list string) : list string :=
  fold_left Set_add l [].

Definition Set_delete (x : string) (s : list string) : list string :=
  filter (fun y => negb (String.eqb x y)) s.

End JS.

(** ** [path.extname] (POSIX flavour)

    A transcription of Node's right-to-left scan: trailing slashes are
    skipped, the scan stops at the separator in front of the last path
    component, and a component that starts with its only dot, or is
    exactly [..], has no extension. *)

Module Path.

Record Scan := mkScan {
  startDot : option nat;
  startPart : nat;
  endPos : option nat;
  matchedSlash : bool;
  preDotState : Z;
  stopped : bool
}.

Definition scanInit : Scan :=
  mkScan None 0 None true 0 false.

Definition scanStep (i : nat) (c : ascii) (st : Scan) : Scan :=
  if stopped st then st
  else if Ascii.eqb c "/"%char then
    if negb (matchedSlash st)
    then mkScan (startDot st) (i + 1) (endPos st) (matchedSlash st) (preDotState st) true
    else st
  else
    let st1 :=
      match endPos st with
      | None => mkScan (startDot st) (startPart st) (Some (i + 1)) false (preDotState st) false
      | Some _ => st
      end in
    if Ascii.eqb c "."%char then
      match startDot st1 with
      | None => mkScan (Some i) (startPart st1) (endPos st1) (matchedSlash st1) (preDotState st1) false
      | Some _ => mkScan (startDot st1) (startPart st1) (endPos st1) (matchedSlash st1) 1 false
      end
    else
      match startDot st1 with
      | Some _ => mkScan (startDot st1) (startPart st1) (endPos st1) (matchedSlash st1) (-1) false
      | None => st1
      end.

(** The loop [for (i = path.length - 1; i >= 0; --i)]: the characters
    are visited last to first, each with its index. *)
Fixpoint scanFrom (i : nat) (s : string) : Scan :=
  match s with
  | EmptyString => scanInit
  | String c rest => scanStep i c (scanFrom (S i) rest)
  end.

Definition extname (path : string) : string :=
  let st := scanFrom 0 path in
  match startDot st, endPos st with
  | Some sd, Some e =>
      if (preDotState st =? 0)%Z
         || ((preDotState st =? 1)%Z && (sd =? e - 1)%nat && (sd =? startPart st + 1)%nat)
      then EmptyString
      else substring sd (e - sd) path
  | _, _ => EmptyString
  end.

End Path.

(** ** Buffers and UTF-8

    A [Buffer] is a list of bytes.  The read stream of the Bounded Stream
    Writer is opened with [{ encoding: 'utf-8' }], so the data handler
    receives decoded strings and turns them back into bytes with
    [Buffer.from(chunk, 'utf-8')]; both directions are modelled here.  A
    decoded string is a list of code points. *)

Module Utf8.

Definition byteOf (n : N) : byte :=
  match Byte.of_N (n mod 256) with
  | Some x => x
  | None => x00
  end.

(** [Buffer.from(s, 'utf-8')], one code point at a time.  A lone
    surrogate is written as U+FFFD. *)
Definition encode1 (c : N) : list byte :=
  (if c <? 0x80 then [byteOf c]
   else if c <? 0x800 then [byteOf (0xC0 + c / 64); byteOf (0x80 + c mod 64)]
   else if (0xD800 <=? c) && (c <=? 0xDFFF) then [xef; xbf; xbd]
   else if c <? 0x10000 then
     [byteOf (0xE0 + c / 4096); byteOf (0x80 + (c / 64) mod 64); byteOf (0x80 + c mod 64)]
   else
     [byteOf (0xF0 + c / 262144); byteOf (0x80 + (c / 4096) mod 64);
      byteOf (0x80 + (c / 64) mod 64); byteOf (0x80 + c mod 64)])%N.

Definition encode (s : list N) : list byte := flat_map encode1 s.

(** The bytes a [string] of the document text is written as. *)
Definition encodeString (s : string) : list byte :=
  encode (map N_of_ascii (list_ascii_of_string s)).

(** The streaming decoder: the state of the UTF-8 decoding algorithm
    that survives from one raw chunk to the next. *)
Record Decoder := mkDecoder {
  codePoint : N;
  bytesSeen : N;
  bytesNeeded : N;
  lowerBoundary : N;
  upperBoundary : N
}.

Definition idle : Decoder := mkDecoder 0 0 0 0x80 0xBF.

Definition lead (x : N) : list N * Decoder :=
  (if x <=? 0x7F then ([x], idle)
   else if (0xC2 <=? x) && (x <=? 0xDF) then ([], mkDecoder (N.land x 0x1F) 0 1 0x80 0xBF)
   else if (0xE0 <=? x) && (x <=? 0xEF) then
     ([], mkDecoder (N.land x 0xF) 0 2
                    (if x =? 0xE0 then 0xA0 else 0x80) (if x =? 0xED then 0x9F else 0xBF))
   else if (0xF0 <=? x) && (x <=? 0xF4) then
     ([], mkDecoder (N.land x 0x7) 0 3
                    (if x =? 0xF0 then 0x90 else 0x80) (if x =? 0xF4 then 0x8F else 0xBF))
   else ([0xFFFD], idle))%N.

Definition step (d : Decoder) (b : byte) : list N * Decoder :=
  let x := Byte.to_N b in
  (if bytesNeeded d =? 0 then lead x
   else if negb ((lowerBoundary d <=? x) && (x <=? upperBoundary d)) then
     let '(out, d') := lead x in (0xFFFD :: out, d')
   else
     let c := codePoint d * 64 + N.land x 0x3F in
     if bytesSeen d + 1 =? bytesNeeded d then ([c], idle)
     else ([], mkDecoder c (bytesSeen d + 1) (bytesNeeded d) 0x80 0xBF))%N.

(** [decoder.write(rawChunk)]. *)
Fixpoint write (d : Decoder) (raw : list byte) : list N * Decoder :=
  match raw with
  | [] => ([], d)
  | b :: rest =>
      let '(out, d1) := step d b in
      let '(out', d2) := write d1 rest in
      (out ++ out', d2)
  end.

(** [decoder.end()]: an unfinished character becomes U+FFFD. *)
Definition finish (d : Decoder) : list N :=
  if (bytesNeeded d =? 0)%N then [] else [0xFFFD%N].

End Utf8.

Definition Buffer := list byte.

(** [Buffer.alloc(n)]: [n] zero bytes. *)
Definition Buffer_alloc (n : nat) : Buffer := repeat x00 n.

(** [buf.slice(0, end)]: a negative [end] counts from the end of the
    buffer, and the result never reaches outside of it. *)
Definition Buffer_slice0 (buf : Buffer) (e : Z) : Buffer :=
  let len := Z.of_nat (List.length buf) in
  let e' := if (e <? 0)%Z then Z.max 0 (len + e) else Z.min e len in
  firstn (Z.to_nat e') buf.

(** ** The world the program acts on

    The output sink is the sequence of [outputStream.write] calls, each
    with the string or buffer it was given.  The warnings on the console,
    the calls on the progress bar and the calls on the file system are
    recorded next to it. *)

Inductive Written :=
| WStr (s : string)
| WBuf (b : Buffer).

Inductive FsCall :=
| CallStat (p : string)
| CallOpen (p : string)
| CallRead (p : string)
| CallClose (p : string)
| CallCreateReadStream (p : string).

Record World := mkWorld {
  sink : list Written;
  sinkEnded : bool;
  warnings : list string;
  barIncrements : nat;
  barStops : nat;
  fsCalls : list FsCall
}.

Definition emptyWorld : World := mkWorld [] false [] 0 0 [].

(** The bytes that reach the output file. *)
Definition sinkBytes (ws : list Written) : list byte :=
  flat_map (fun w => match w with
                     | WStr s => Utf8.encodeString s
                     | WBuf b => b
                     end) ws.

(** A computation returns, throws, or leaves through [process.exit];
    what it did to the world before stays done. *)
Inductive Result (A : Type) :=
| Ok (a : A)
| Throw (err : string)
| Exit (code : nat).

Arguments Ok {A} a.
Arguments Throw {A} err.
Arguments Exit {A} code.

Definition M (A : Type) : Type := World -> Result A * World.

Definition ret {A : Type} (a : A) : M A := fun w => (Ok a, w).

Definition bind {A B : Type} (c : M A) (k : A -> M B) : M B :=
  fun w =>
    match c w with
    | (Ok a, w') => k a w'
    | (Throw err, w') => (Throw err, w')
    | (Exit code, w') => (Exit code, w')
    end.

Definition throw {A : Type} (err : string) : M A := fun w => (Throw err, w).

Definition processExit {A : Type} (code : nat) : M A := fun w => (Exit code, w).

(** [try { c } catch (err) { handler(err) }] *)
Definition tryCatch {A : Type} (c : M A) (handler : string -> M A) : M A :=
  fun w =>
    match c w with
    | (Throw err, w') => handler err w'
    | r => r
    end.

Declare Scope js_scope.
Delimit Scope js_scope with js.
Notation "x <- c ;; k" := (bind c (fun x => k))
  (at level 61, c at next level, right associativity) : js_scope.
Notation "c ;; k" := (bind c (fun _ => k))
  (at level 61, right associativity) : js_scope.
Local Open Scope js_scope.

Definition outputStream_write (x : Written) : M unit :=
  fun w => (Ok tt, mkWorld (sink w ++ [x]) (sinkEnded w) (warnings w)
                           (barIncrements w) (barStops w) (fsCalls w)).

Definition outputStream_end : M unit :=
  fun w => (Ok tt, mkWorld (sink w) true (warnings w)
                           (barIncrements w) (barStops w) (fsCalls w)).

Definition console_warn (msg : string) : M unit :=
  fun w => (Ok tt, mkWorld (sink w) (sinkEnded w) (warnings w ++ [msg])
                           (barIncrements w) (barStops w) (fsCalls w)).

Definition bar_increment : M unit :=
  fun w => (Ok tt, mkWorld (sink w) (sinkEnded w) (warnings w)
                           (S (barIncrements w)) (barStops w) (fsCalls w)).

Definition bar_stop : M unit :=
  fun w => (Ok tt, mkWorld (sink w) (sinkEnded w) (warnings w)
                           (barIncrements w) (S (barStops w)) (fsCalls w)).

Definition fs_called (c : FsCall) : M unit :=
  fun w => (Ok tt, mkWorld (sink w) (sinkEnded w) (warnings w)
                           (barIncrements w) (barStops w) (fsCalls w ++ [c])).

(** [if (bar) bar.m()] *)
Definition whenBar (bar : bool) (c : M unit) : M unit :=
  if bar then c else ret tt.

(** ** The file system, as the program observes it

    Each call the program makes has its own outcome, so that a file may
    vanish or become unreadable between two calls. *)

Record Stats := mkStats {
  size : N;
  mtimeISO : string            (* stats.mtime.toISOString() *)
}.

Inductive Terminal :=
| StreamEnd
| StreamError (err : string).

Record FileState := mkFileState {
  statResult : option Stats;         (* fsp.stat: None when it rejects *)
  openResult : bool;                 (* fsp.open(p, 'r') succeeds *)
  readResult : option (list byte);   (* the content fd.read sees; None when it rejects *)
  closeResult : bool;                (* fd.close() succeeds *)
  streamChunks : list (list byte);   (* the raw chunks the read stream gets *)
  streamLast : Terminal              (* ... and how that stream finishes *)
}.

(** A readable regular file, read by the stream in one raw chunk. *)
Definition regularFile (content : list byte) (mtime : string) : FileState :=
  mkFileState (Some (mkStats (N.of_nat (List.length content)) mtime))
              true (Some content) true
              (match content with [] => [] | _ => [content] end) StreamEnd.

(** A path with nothing behind it. *)
Definition missingFile : FileState :=
  mkFileState None false None false [] (StreamError "ENOENT").

(** What a data handler receives: [string | Buffer]. *)
Inductive Chunk :=
| ChunkString (s : list N)
| ChunkBuffer (b : Buffer).

Record ReadStream := mkReadStream {
  dataEvents : list Chunk;
  lastEvent : Terminal
}.

(** [fs.createReadStream(p, { encoding: 'utf-8' })]: every raw chunk goes
    through the decoder, an empty result is not delivered, and at the end
    of the file the decoder is flushed. *)
Definition deliver (s : list N) : list Chunk :=
  match s with
  | [] => []
  | _ => [ChunkString s]
  end.

Fixpoint decodeChunks (d : Utf8.Decoder) (raw : list (list byte)) (last : Terminal)
  : list Chunk :=
  match raw with
  | [] => match last with
          | StreamEnd => deliver (Utf8.finish d)
          | StreamError _ => []
          end
  | r :: rest =>
      let '(s, d') := Utf8.write d r in
      deliver s ++ decodeChunks d' rest last
  end.

Definition createReadStream (raw : list (list byte)) (last : Terminal) : ReadStream :=
  mkReadStream (decodeChunks Utf8.idle raw last) last.

Definition DQUOTE : string := String (ascii_of_nat 34) EmptyString.

Definition TRUNCATED : string := (JS.LF ++ "[TRUNCATED]" ++ JS.LF)%string.

Section Program.

(** The state of every path, and [path.join]. *)
Variable fs : string -> FileState.
Variable path_join : string -> string -> string.

Definition fsp_stat (p : string) : M Stats :=
  fs_called (CallStat p) ;;
  match statResult (fs p) with
  | Some st => ret st
  | None => throw "stat failed"
  end.

Definition fsp_open (p : string) : M string :=
  fs_called (CallOpen p) ;;
  if openResult (fs p) then ret p else throw "open failed".

(** [fd.read(buffer, 0, length, 0)]: the first [length] bytes of the
    file, or as many as it has, land at the start of the buffer. *)
Definition fd_read (fd : string) (buffer : Buffer) (length : nat) : M (nat * Buffer) :=
  fs_called (CallRead fd) ;;
  match readResult (fs fd) with
  | Some content =>
      let data := firstn length content in
      ret (List.length data, data ++ skipn (List.length data) buffer)
  | None => throw "read failed"
  end.

Definition fd_close (fd : string) : M unit :=
  fs_called (CallClose fd) ;;
  if closeResult (fs fd) then ret tt else throw "close failed".

(** *** Binary Classifier ([isBinaryFile], index.ts 161-181) *)

(** [for (let i = 0; i < bytesRead; i++) if (buffer[i] === 0) return true] *)
Definition hasNullByte (buffer : Buffer) (bytesRead : nat) : bool :=
  existsb (fun i => Byte.eqb (nth i buffer x01) x00) (seq 0 bytesRead).

Definition isBinaryFile (filePath : string) : M bool :=
  if String.eqb (JS.toLowerCase (Path.extname filePath)) ".bin" then ret true
  else
    tryCatch
      (fd <- fsp_open filePath ;;
       let buffer := Buffer_alloc 512 in
       r <- fd_read fd buffer 512 ;;
       let '(bytesRead, buffer) := r in
       fd_close fd ;;
       ret (hasNullByte buffer bytesRead))
      (fun _ => ret false).

(** *** Bounded Stream Writer ([streamFileWithLimit], index.ts 201-257) *)

Record Copy := mkCopy {
  bytesWritten : Z;
  truncated : bool
}.

Definition toBuffer (chunk : Chunk) : Buffer :=
  match chunk with
  | ChunkBuffer b => b
  | ChunkString s => Utf8.encode s
  end.

(** The ['data'] handler. *)
Definition onData (maxSize : Z) (st : Copy) (chunk : Chunk) : M Copy :=
  if truncated st then ret st
  else
    let chunkBuffer := toBuffer chunk in
    let length := Z.of_nat (List.length chunkBuffer) in
    if (bytesWritten st + length >? maxSize)%Z then
      let remaining := (maxSize - bytesWritten st)%Z in
      outputStream_write (WBuf (Buffer_slice0 chunkBuffer remaining)) ;;
      outputStream_write (WStr TRUNCATED) ;;
      ret (mkCopy (bytesWritten st) true)
    else
      outputStream_write (WBuf chunkBuffer) ;;
      ret (mkCopy (bytesWritten st + length)%Z false).

Fixpoint onDataAll (maxSize : Z) (st : Copy) (chunks : list Chunk) : M Copy :=
  match chunks with
  | [] => ret st
  | chunk :: rest =>
      st' <- onData maxSize st chunk ;;
      onDataAll maxSize st' rest
  end.

(** The promise: resolved by the data handler on truncation, otherwise
    resolved by ['end'] or rejected by ['error']; a promise settles
    once, so a rejection after the truncation changes nothing. *)
Definition settle (st : Copy) (last : Terminal) : M unit :=
  if truncated st then ret tt
  else match last with
       | StreamEnd => ret tt
       | StreamError err => throw err
       end.

Definition streamFrom (readStream : ReadStream) (maxSize : Z) : M unit :=
  st <- onDataAll maxSize (mkCopy 0 false) (dataEvents readStream) ;;
  settle st (lastEvent readStream).

Definition streamFileWithLimit (absolutePath : string) (maxSize : Z) : M unit :=
  fs_called (CallCreateReadStream absolutePath) ;;
  streamFrom (createReadStream (streamChunks (fs absolutePath))
                               (streamLast (fs absolutePath))) maxSize.

(** *** Document Assembler ([writeFilesWithIndex], index.ts 263-307) *)

Definition sectionHeader (n : nat) : string :=
  ("----[" ++ JS.toString n ++ "]" ++ JS.LF)%string.

Definition binaryMeta (stats : Stats) : string :=
  ("[BINARY FILE] Size: " ++ JS.toStringN (size stats)
     ++ " bytes, Modified: " ++ mtimeISO stats)%string.

Definition skipWarning (relativePath : string) : string :=
  ("Warning: unable to access or read " ++ DQUOTE ++ relativePath ++ DQUOTE
     ++ ". Skipping.")%string.

Section Loop.

Variable repoRoot : string.
Variable maxSize : Z.
Variable bar : bool.           (* [bar !== null] *)

(** The body of the [try] block; [true] says that it ran to its end. *)
Definition writeOne (idx : nat) (relativePath : string) : M bool :=
  let absolutePath := path_join repoRoot relativePath in
  tryCatch
    (stats <- fsp_stat absolutePath ;;
     isBinary <- isBinaryFile absolutePath ;;
     outputStream_write (WStr (sectionHeader (idx + 1))) ;;
     outputStream_write (WStr (relativePath ++ JS.LF)%string) ;;
     (if isBinary then
        let meta := binaryMeta stats in
        outputStream_write (WStr (meta ++ JS.LF)%string)
      else
        streamFileWithLimit absolutePath maxSize ;;
        outputStream_write (WStr JS.LF)) ;;
     ret true)
    (fun err =>
       console_warn (skipWarning relativePath) ;;
       ret false).                                   (* continue *)

(** [for (let idx = 0; idx < nonIgnoredFiles.length; idx++)] *)
Fixpoint writeFilesFrom (idx : nat) (files : list string) : M unit :=
  match files with
  | [] => ret tt
  | relativePath :: rest =>
      completed <- writeOne idx relativePath ;;
      (if completed : bool then whenBar bar bar_increment else ret tt) ;;
      writeFilesFrom (S idx) rest
  end.

Definition writeFilesWithIndex (nonIgnoredFiles : list string) : M unit :=
  writeFilesFrom 0 nonIgnoredFiles ;;
  whenBar bar bar_stop.

End Loop.

End Program.

(** ** Table of contents ([buildTableOfContents], index.ts 187-194) *)

Definition tocHeader : string := ("Table of Contents:" ++ JS.LF)%string.

Definition tocLine (index : nat) (filePath : string) : string :=
  (JS.toString (index + 1) ++ ". " ++ filePath ++ JS.LF)%string.

Definition buildTableOfContents (fileList : list string) : string :=
  let toc := tocHeader in
  let toc :=
    JS.forEach (fun toc filePath index => (toc ++ tocLine index filePath)%string)
               fileList toc in
  (toc ++ JS.LF)%string.

(** ** Pattern Loader ([getIgnoreList], index.ts 139-155)

    [raw] is the content of the ignore file and [win32] says whether
    [os.platform() === 'win32']. *)

Definition getIgnoreList (win32 : bool) (raw : string) : list string :=
  let lines := JS.splitLines raw in
  fold_left
    (fun patterns line =>
       let trimmed := JS.trim line in
       if negb (JS.truthy trimmed) || JS.startsWith "#" trimmed then patterns  (* continue *)
       else
         let pattern := if win32 then JS.slashesToBackslashes trimmed else trimmed in
         patterns ++ [pattern])
    lines [].

(** [main], index.ts 410-411: the two sequences of the IgnoreSpec. *)
Definition positivePatterns (ignorePatterns : list string) : list string :=
  filter (fun p => negb (JS.startsWith "!" p)) ignorePatterns.

Definition negativePatterns (ignorePatterns : list string) : list string :=
  map JS.slice1 (filter (fun p => JS.startsWith "!" p) ignorePatterns).

Record IgnoreSpec := mkIgnoreSpec {
  excludePatterns : list string;
  reincludePatterns : list string
}.

Definition ignoreSpec (win32 : bool) (raw : string) : IgnoreSpec :=
  let ignorePatterns := getIgnoreList win32 raw in
  mkIgnoreSpec (positivePatterns ignorePatterns) (negativePatterns ignorePatterns).

(** ** The [glob] package

    [glob(pattern, { cwd, nodir: true, dot: true, follow: false, ignore })]
    lists the entries of the tree that the pattern matches and no ignore
    entry matches.  How a pattern matches is the package's business: an
    engine compiles a pattern to a predicate on paths, or rejects it. *)

Module Glob.

Record Engine := mkEngine {
  matcher : string -> option (string -> bool);   (* a pattern to enumerate *)
  ignorer : string -> option (string -> bool)    (* an entry of [ignore] *)
}.

Fixpoint compileAll (compile : string -> option (string -> bool)) (ps : list string)
  : option (list (string -> bool)) :=
  match ps with
  | [] => Some []
  | p :: rest =>
      match compile p, compileAll compile rest with
      | Some m, Some ms => Some (m :: ms)
      | _, _ => None
      end
  end.

(** [None] when the call rejects. *)
Definition glob (e : Engine) (tree : list string) (pattern : string) (ignore : list string)
  : option (list string) :=
  match matcher e pattern, compileAll (ignorer e) ignore with
  | Some m, Some igs =>
      Some (filter (fun f => m f && negb (existsb (fun ig => ig f) igs)) tree)
  | _, _ => None
  end.

(** A small engine for running examples: literal characters, [?] and
    [*] inside a path segment, and [**] for any number of segments. *)
Fixpoint splitSlash (s : string) : list string :=
  match s with
  | EmptyString => [EmptyString]
  | String c rest =>
      if Ascii.eqb c "/"%char then EmptyString :: splitSlash rest
      else match splitSlash rest with
           | seg :: segs => String c seg :: segs
           | [] => [String c EmptyString]
           end
  end.

Fixpoint wild (p s : string) {struct p} : bool :=
  match p with
  | EmptyString => negb (JS.truthy s)
  | String c p' =>
      if Ascii.eqb c "*"%char then
        (fix star (s : string) : bool :=
           wild p' s || match s with
                        | EmptyString => false
                        | String _ s' => star s'
                        end) s
      else
        match s with
        | EmptyString => false
        | String d s' => (Ascii.eqb c "?"%char || Ascii.eqb c d) && wild p' s'
        end
  end.

Fixpoint segments (ps fs : list string) {struct ps} : bool :=
  match ps with
  | [] => match fs with [] => true | _ => false end
  | p :: ps' =>
      if String.eqb p "**" then
        (fix star (fs : list string) : bool :=
           segments ps' fs || match fs with
                              | [] => false
                              | _ :: fs' => star fs'
                              end) fs
      else
        match fs with
        | [] => false
        | f :: fs' => wild p f && segments ps' fs'
        end
  end.

Definition simpleMatch (pattern path : string) : bool :=
  segments (splitSlash pattern) (splitSlash path).

Definition simple : Engine :=
  mkEngine (fun p => Some (simpleMatch p)) (fun p => Some (simpleMatch p)).

End Glob.

(** ** File-Set Resolver ([main], index.ts 413-465) *)

Record Names := mkNames {
  ignoreFileName : string;
  outputFileName : string;
  preambleFile : option string      (* [null] is [None] *)
}.

Definition defaultNames : Names :=
  mkNames ".repo2promptignore" "output.txt" None.

(** [preambleFile || ''] *)
Definition preambleOrEmpty (names : Names) : string :=
  match preambleFile names with
  | Some p => p
  | None => EmptyString
  end.

Definition ignoreGlobs (names : Names) (ignorePatterns : list string) : list string :=
  filter JS.truthy
         (positivePatterns ignorePatterns
            ++ [".git/**"; "node_modules/**"; ignoreFileName names; outputFileName names;
                preambleOrEmpty names]).

(** The loop over the negative patterns; a pattern that [glob] rejects
    adds nothing. *)
Fixpoint reIncludedFrom (e : Glob.Engine) (tree : list string)
         (reIncluded : list string) (pats : list string) : list string :=
  match pats with
  | [] => reIncluded
  | pat :: rest =>
      match Glob.glob e tree pat [] with
      | Some matches => reIncludedFrom e tree (reIncluded ++ matches) rest
      | None => reIncludedFrom e tree reIncluded rest
      end
  end.

Definition main_resolve (e : Glob.Engine) (tree : list string) (names : Names)
           (ignorePatterns : list string) : Result (list string) :=
  match Glob.glob e tree "**/*" (ignoreGlobs names ignorePatterns) with
  | None => Exit 1
  | Some allFiles =>
      let reIncluded := reIncludedFrom e tree [] (negativePatterns ignorePatterns) in
      let mergedSet := JS.Set_new allFiles in
      let mergedSet := fold_left JS.Set_add reIncluded mergedSet in
      let mergedSet := JS.Set_delete (ignoreFileName names) mergedSet in
      let mergedSet := JS.Set_delete (outputFileName names) mergedSet in
      let mergedSet :=
        if JS.truthy (preambleOrEmpty names)
        then JS.Set_delete (preambleOrEmpty names) mergedSet
        else mergedSet in
      Ok mergedSet
  end.

(** ** The byte ceiling ([main], index.ts 349)

    [parseInt(opts.maxSize || '1048576', 10) || 1048576] *)

Definition main_maxSize (opts_maxSize : option string) : Z :=
  let text :=
    match opts_maxSize with
    | Some s => if JS.truthy s then s else "1048576"
    | None => "1048576"
    end in
  match JS.parseInt text with
  | Some n => if (n =? 0)%Z then 1048576%Z else n
  | None => 1048576%Z
  end.

(** ** Writing the document ([main], index.ts 538-555) *)

Definition END_MARKER : string := ("--END--" ++ JS.LF)%string.

Definition main_write (fs : string -> FileState) (path_join : string -> string -> string)
           (repoRoot preambleText : string) (nonIgnoredFiles : list string)
           (maxSize : Z) (bar : bool) : M unit :=
  outputStream_write (WStr preambleText) ;;
  let toc := buildTableOfContents nonIgnoredFiles in
  outputStream_write (WStr toc) ;;
  tryCatch
    (writeFilesWithIndex fs path_join repoRoot maxSize bar nonIgnoredFiles)
    (fun err => processExit 1) ;;
  outputStream_write (WStr END_MARKER) ;;
  outputStream_end.

(** [path.join(root, rel)] for a root without a trailing slash and a
    relative path that is already normal, as [glob] returns them. *)
Definition joinPlain (root rel : string) : string := (root ++ "/" ++ rel)%string.

(** ** Reference definitions used by the statements below *)

Definition joinAll (lines : list string) : string :=
  fold_right String.append EmptyString lines.


(** [extend w d]: the world [w] followed by the effects recorded in [d]. *)
Definition extend (w d : World) : World :=
  mkWorld (sink w ++ sink d) (sinkEnded w || sinkEnded d) (warnings w ++ warnings d)
          (barIncrements w + barIncrements d) (barStops w + barStops d)
          (fsCalls w ++ fsCalls d).

(** A computation that adds to the world without looking at it. *)
Definition Writes {A : Type} (c : M A) : Prop :=
  forall w, c w = (fst (c emptyWorld), extend w (snd (c emptyWorld))).

(** A computation that returns or throws, but never leaves the process. *)
Definition Stays {A : Type} (c : M A) : Prop :=
  forall code, fst (c emptyWorld) <> Exit code.

(** A computation that always returns. *)
Definition Returns {A : Type} (c : M A) : Prop :=
  exists a, fst (c emptyWorld) = Ok a.

(** The resolved list with the position of every entry. *)
Fixpoint indexedFrom (idx : nat) (files : list string) : list (nat * string) :=
  match files with
  | [] => []
  | p :: rest => (idx, p) :: indexedFrom (S idx) rest
  end.

(** The line of the table of contents for the entry at position [k]:
    its number is [k + 1]. *)
Definition tocEntry (entry : nat * string) : string :=
  (JS.toString (fst entry + 1) ++ ". " ++ snd entry ++ JS.LF)%string.

(** What one pass through the loop body writes to the sink, and whether
    its [try] block ran to the end. *)
Definition entryWrites (fs : string -> FileState) (path_join : string -> string -> string)
           (repoRoot : string) (maxSize : Z) (entry : nat * string) : list Written :=
  sink (snd (writeOne fs path_join repoRoot maxSize (fst entry) (snd entry) emptyWorld)).

Definition entryCompleted (fs : string -> FileState) (path_join : string -> string -> string)
           (repoRoot : string) (maxSize : Z) (entry : nat * string) : bool :=
  match fst (writeOne fs path_join repoRoot maxSize (fst entry) (snd entry) emptyWorld) with
  | Ok b => b
  | _ => false
  end.

(** A computation that leaves the progress bar alone. *)
Definition Quiet {A : Type} (c : M A) : Prop :=
  barIncrements (snd (c emptyWorld)) = 0 /\ barStops (snd (c emptyWorld)) = 0.

(** The number of entries whose [try] block ran to the end. *)
Definition completedCount (fs : string -> FileState) (path_join : string -> string -> string)
           (repoRoot : string) (maxSize : Z) (entries : list (nat * string)) : nat :=
  List.length (filter (entryCompleted fs path_join repoRoot maxSize) entries).

(** *** Example file systems *)

Fixpoint fsOf (files : list (string * FileState)) (p : string) : FileState :=
  match files with
  | [] => missingFile
  | (name, st) :: rest => if String.eqb name p then st else fsOf rest p
  end.

(** A tree in which [b.txt] holds [hi] and nothing else exists. *)
Definition fsOneFile : string -> FileState :=
  fsOf [("r/b.txt", regularFile [x68; x69] "2025-01-01T00:00:00.000Z")].

(** *** The section numbering as the specification words it

    A file is written when its [stat] succeeds; the specification gives
    it the number one plus the count of the files written before it. *)

Definition isWritten (fs : string -> FileState) (path_join : string -> string -> string)
           (repoRoot p : string) : bool :=
  match statResult (fs (path_join repoRoot p)) with
  | Some _ => true
  | None => false
  end.

Definition writtenBefore (fs : string -> FileState) (path_join : string -> string -> string)
           (repoRoot : string) (files : list string) (k : nat) : nat :=
  List.length (filter (isWritten fs path_join repoRoot) (firstn k files)).

Definition sectionIndexCountsWritten (fs : string -> FileState)
           (path_join : string -> string -> string) (repoRoot : string) (maxSize : Z)
           (files : list string) : Prop :=
  forall k p,
    nth_error files k = Some p ->
    isWritten fs path_join repoRoot p = true ->
    exists payload,
      entryWrites fs path_join repoRoot maxSize (k, p)
      = WStr (sectionHeader (1 + writtenBefore fs path_join repoRoot files k))
          :: WStr (p ++ JS.LF)%string :: payload.

(** The pattern as the host writes paths: [/] becomes [\] on win32. *)
Definition hostPattern (win32 : bool) (t : string) : string :=
  if win32 then JS.slashesToBackslashes t else t.


(** *** The bounded copy as the specification words it

    [S] is the byte size of the source, [C] the ceiling. *)
Definition boundedCopySpec (fs : string -> FileState) (absolutePath : string) (C : Z) : Prop :=
  let source := List.concat (streamChunks (fs absolutePath)) in
  let S := Z.of_nat (List.length source) in
  let out := sinkBytes (sink (snd (streamFileWithLimit fs absolutePath C emptyWorld))) in
  ((C < S)%Z -> out = firstn (Z.to_nat C) source ++ Utf8.encodeString TRUNCATED)
  /\ ((S <= C)%Z -> out = source).

(** Unicode scalar values: the code points outside the surrogate range. *)
Definition isScalar (c : N) : Prop :=
  (c < 0xD800 \/ (0xE000 <= c /\ c < 0x110000))%N.

(** Well-formed UTF-8: the encoding of a sequence of scalar values. *)
Definition validUtf8 (bytes : list byte) : Prop :=
  exists s, Forall isScalar s /\ bytes = Utf8.encode s.

(** What the data handler sees of a source: the bytes of the strings the
    stream delivers, end to end.  The source survives the stream when
    these are its own bytes. *)
Definition utf8Text (raw : list (list byte)) : Prop :=
  flat_map toBuffer (decodeChunks Utf8.idle raw StreamEnd) = List.concat raw.

Definition isAscii (b : byte) : Prop := (Byte.to_N b < 128)%N.

(** A file holding the single byte 0xFF, which is not UTF-8. *)
Definition fsLatin1 : string -> FileState :=
  fsOf [("r/latin1.txt", regularFile [xff] "2025-01-01T00:00:00.000Z")].

(** A file holding [0123456789]. *)
Definition fsDigits : string -> FileState :=
  fsOf [("r/digits.txt",
         regularFile [x30; x31; x32; x33; x34; x35; x36; x37; x38; x39]
                     "2025-01-01T00:00:00.000Z")].

(** *** The resolver properties as the specification words them *)

(** A file of the tree that no exclude pattern matches is resolved. *)
Definition keepsUnexcluded (e : Glob.Engine) (tree : list string) (names : Names)
           (ignorePatterns : list string) : Prop :=
  forall f,
    In f tree ->
    (forall g, In g (positivePatterns ignorePatterns) ->
               exists ig, Glob.ignorer e g = Some ig /\ ig f = false) ->
    exists files, main_resolve e tree names ignorePatterns = Ok files /\ In f files.

(** A file of the tree that an exclude pattern and a re-include pattern
    both match is resolved. *)
Definition reincludeWins (e : Glob.Engine) (tree : list string) (names : Names)
           (ignorePatterns : list string) : Prop :=
  forall f,
    In f tree ->
    (exists g ig, In g (positivePatterns ignorePatterns)
                  /\ Glob.ignorer e g = Some ig /\ ig f = true) ->
    (exists pat m, In pat (negativePatterns ignorePatterns)
                   /\ Glob.matcher e pat = Some m /\ m f = true) ->
    exists files, main_resolve e tree names ignorePatterns = Ok files /\ In f files.

(** The bytes of an ASCII text. *)
Definition bytesOf (s : string) : list byte := list_byte_of_string s.

(** The tree of the unit tests: a text file, a file with zero bytes under
    a text name, a file under a [.bin] name, a long text, and a file that
    can be stat'ed but not read. *)
Definition fsTests : string -> FileState :=
  fsOf [("r/text.txt", regularFile (bytesOf "Test content") "2025-01-01T00:00:00.000Z");
        ("r/image.bin", regularFile [x00; x01; x02; x03; x04; x00]
                                    "2025-01-02T00:00:00.000Z");
        ("r/weird.txt", regularFile (bytesOf "ABC" ++ [x00] ++ bytesOf "DEF")
                                    "2025-01-03T00:00:00.000Z");
        ("r/long.txt", regularFile (repeat x41 500 ++ repeat x42 500)
                                   "2025-01-04T00:00:00.000Z");
        ("r/locked.txt",
         mkFileState (Some (mkStats 5 "2025-01-05T00:00:00.000Z"))
                     false None false [] (StreamError "EACCES"))].

(** ** Configuration ([fileExists], index.ts 126-133; [loadConfig], 60-121)

    A configuration is whatever [JSON.parse] returns: the cast to
    [Repo2PromptConfig] checks nothing.  The messages on the console are
    left out. *)

#[local] Set Warnings "-register-all".

Inductive JSON :=
| JNull
| JBool (b : bool)
| JNumber (literal : string)
| JString (s : string)
| JArray (items : list JSON)
| JObject (fields : list (string * JSON)).

(** The own property [key] of an object, [None] for [undefined]. *)
Fixpoint lookupField (fields : list (string * JSON)) (key : string) : option JSON :=
  match fields with
  | [] => None
  | (k, v) :: rest => if String.eqb k key then Some v else lookupField rest key
  end.

(** [v.key] for the keys the program reads ([repo2prompt], [showProgress]):
    reading a property of [null] throws a TypeError, and arrays, strings,
    numbers and booleans have no such property. *)
Definition getProperty (v : JSON) (key : string) : M (option JSON) :=
  match v with
  | JNull => throw "TypeError: Cannot read properties of null"
  | JObject fields => ret (lookupField fields key)
  | _ => ret None
  end.

(** [x && typeof x === 'object']: [null] has that type but is falsy, and
    the other falsy values are not objects. *)
Definition isTruthyObject (x : option JSON) : bool :=
  match x with
  | Some (JObject _) | Some (JArray _) => true
  | _ => false
  end.

(** [opts.x || fallback] on optional strings: [undefined], [null] and ['']
    are falsy. *)
Definition orString (a : option string) (fallback : option string) : option string :=
  match a with
  | Some s => if JS.truthy s then Some s else fallback
  | None => fallback
  end.

(** [s.endsWith(c)] for a one-character needle. *)
Fixpoint JS_endsWith (c : ascii) (s : string) : bool :=
  match s with
  | EmptyString => false
  | String a rest =>
      match rest with
      | EmptyString => Ascii.eqb a c
      | String _ _ => JS_endsWith c rest
      end
  end.

Section Configuration.

(** The files the configuration is read from, [JSON.parse],
    [path.resolve] and [path.join]. *)
Variable accessible : string -> bool.          (* fsp.access(p, F_OK) resolves *)
Variable readFile : string -> option string.   (* fsp.readFile(p, 'utf-8'); None when it rejects *)
Variable JSON_parse : string -> option JSON.   (* None for a SyntaxError *)
Variable path_resolve : string -> string -> string.
Variable path_join : string -> string -> string.
Variable cwd : string.                         (* process.cwd() *)

Definition fileExists (p : string) : M bool :=
  tryCatch
    (if accessible p then ret true else throw "ENOENT")
    (fun _ => ret false).

Definition fsp_readFile (p : string) : M string :=
  match readFile p with
  | Some raw => ret raw
  | None => throw "readFile failed"
  end.

Definition JSON_parseM (raw : string) : M JSON :=
  match JSON_parse raw with
  | Some v => ret v
  | None => throw "SyntaxError"
  end.

Definition loadConfig (repoRoot : string) (explicitConfigPath : option string) : M JSON :=
  let config := JObject [] in
  match orString explicitConfigPath None with
  | Some explicit =>
      let absConfig := path_resolve cwd explicit in
      tryCatch
        (raw <- fsp_readFile absConfig ;;
         config <- JSON_parseM raw ;;
         ret config)
        (fun err => processExit 1)
  | None =>
      let rcPath := path_join repoRoot ".repo2prompt.json" in
      rcExists <- fileExists rcPath ;;
      if rcExists : bool then
        tryCatch
          (raw <- fsp_readFile rcPath ;;
           config <- JSON_parseM raw ;;
           ret config)
          (fun err => processExit 1)
      else
        let pkgJsonPath := path_join repoRoot "package.json" in
        pkgExists <- fileExists pkgJsonPath ;;
        if pkgExists : bool then
          tryCatch
            (rawPkg <- fsp_readFile pkgJsonPath ;;
             pkg <- JSON_parseM rawPkg ;;
             field <- getProperty pkg "repo2prompt" ;;
             match field with
             | Some v => if isTruthyObject field then ret v else ret config
             | None => ret config
             end)
            (fun _ => ret config)       (* an invalid package.json is ignored *)
        else ret config
  end.

(** *** The progress flag ([main], index.ts 369-377)

    [opts_progress] is [false] exactly under [--no-progress]. *)
Definition main_showProgress (opts_progress debugMode : bool) (configFromFile : JSON)
  : M bool :=
  showProgress <-
    (if opts_progress then
       field <- getProperty configFromFile "showProgress" ;;
       match field with
       | Some (JBool b) => ret b          (* typeof ... === 'boolean' *)
       | _ => ret opts_progress
       end
     else ret opts_progress) ;;
  if debugMode then ret false else ret showProgress.

(** *** The preamble ([main], index.ts 381 and 481-524)

    The two optional strings are [opts.preamble] and
    [configFromFile.preamble], typed as [Repo2PromptConfig] declares
    them.  The default text of the source has characters outside the
    modelled range and is a parameter. *)
Variable defaultPreamble : string.

Definition main_preambleFile (opts_preamble config_preamble : option string)
  : option string :=
  orString opts_preamble (orString config_preamble None).

(** One of the two [try] blocks that read a preamble file. *)
Definition readPreamble (absPreamble : string) : M string :=
  tryCatch
    (preambleText <- fsp_readFile absPreamble ;;
     if negb (JS_endsWith JS.LFc preambleText) then ret (preambleText ++ JS.LF)%string
     else ret preambleText)
    (fun _ => processExit 1).

Definition main_preamble (repoRoot : string) (opts_preamble config_preamble : option string)
  : M string :=
  match orString (main_preambleFile opts_preamble config_preamble) None with
  | Some preambleFile => readPreamble (path_resolve cwd preambleFile)
  | None =>
      match orString config_preamble None with
      | Some preamble => readPreamble (path_resolve repoRoot preamble)
      | None => ret defaultPreamble
      end
  end.

End Configuration.

(** [raw] with every line feed turned into carriage return, line feed:
    the same ignore file saved with the other line-ending convention. *)
Fixpoint toCRLF (raw : string) : string :=
  match raw with
  | EmptyString => EmptyString
  | String c rest =>
      if Ascii.eqb c JS.LFc then String JS.CRc (String JS.LFc (toCRLF rest))
      else String c (toCRLF rest)
  end.

(** An engine that rejects a pattern longer than [limit] characters, as
    the package does with its own, larger, limit. *)
Definition boundedEngine (limit : nat) : Glob.Engine :=
  let compile p :=
    if (String.length p <=? limit)%nat then Some (Glob.simpleMatch p) else None in
  Glob.mkEngine compile compile.

(** The paths [main] takes out of the merged set at the end. *)
Definition isReserved (names : Names) (f : string) : bool :=
  String.eqb (ignoreFileName names) f
  || String.eqb (outputFileName names) f
  || (JS.truthy (preambleOrEmpty names) && String.eqb (preambleOrEmpty names) f).

(** Lines of the two savings of a file: the same line, except that it may
    have gained a carriage return at its end. *)
Definition sameLine (a b : string) : Prop :=
  a = b \/ a = (b ++ String JS.CRc EmptyString)%string.

(** A computation that prints no warning. *)
Definition Silent {A : Type} (c : M A) : Prop :=
  warnings (snd (c emptyWorld)) = [].

(** A small disk for the configuration functions: a repository [/repo]
    whose [package.json] carries a [repo2prompt] field, and a file
    [/null.json] that holds the JSON text [null].  Paths are absolute, so
    resolving one gives it back. *)
Definition diskAccessible (p : string) : bool :=
  String.eqb p "/repo/package.json" || String.eqb p "/null.json".

Definition diskReadFile (p : string) : option string :=
  if String.eqb p "/repo/package.json" then Some "{package}"
  else if String.eqb p "/null.json" then Some "null"
  else None.

Definition diskParse (raw : string) : option JSON :=
  if String.eqb raw "null" then Some JNull
  else if String.eqb raw "{package}" then
    Some (JObject [("name", JString "demo");
                   ("repo2prompt", JObject [("showProgress", JBool false)])])
  else None.

Definition diskResolve (from to : string) : string := to.

(** What reading a file and parsing its content give, when both succeed. *)
Definition parsedFile (readFile : string -> option string)
           (JSON_parse : string -> option JSON) (p : string) : option JSON :=
  match readFile p with
  | Some raw => JSON_parse raw
  | None => None
  end.

(** *** The classifier as the specification words it

    Outside the [.bin] names, for a file that is opened and read: the
    answer is [true] exactly when a zero byte is among the first 512
    bytes read. *)
Definition classifierSpec (fs : string -> FileState) (filePath : string) : Prop :=
  JS.toLowerCase (Path.extname filePath) <> ".bin" ->
  forall content,
    openResult (fs filePath) = true ->
    readResult (fs filePath) = Some content ->
    (fst (isBinaryFile fs filePath emptyWorld) = Ok true
     <-> In x00 (firstn 512 content)).

(** A file that is opened and read, holds a zero byte, and whose
    descriptor cannot be closed. *)
Definition fsCloseFails : string -> FileState :=
  fsOf [("r/z.dat",
         mkFileState (Some (mkStats 2 "2025-01-06T00:00:00.000Z"))
                     true (Some [x61; x00]) false [[x61; x00]] StreamEnd)].
(** * Properties *)

(** ** Table of contents *)

Lemma append_assoc (a b c : string) : ((a ++ b) ++ c = a ++ (b ++ c))%string.
Proof. induction a as [|x a IH]; simpl; [reflexivity | now rewrite IH]. Qed.

Lemma append_empty_r (a : string) : (a ++ "")%string = a.
Proof. induction a as [|x a IH]; simpl; [reflexivity | now rewrite IH]. Qed.

Lemma forEachFrom_tocLines (files : list string) :
  forall index acc,
    JS.forEachFrom (fun toc filePath i => (toc ++ tocLine i filePath)%string) index files acc
    = (acc ++ joinAll (map tocEntry (indexedFrom index files)))%string.
Proof.
  induction files as [|p rest IH]; intros index acc; simpl.
  - now rewrite append_empty_r.
  - now rewrite IH, append_assoc.
Qed.

Lemma indexedFrom_fst (files : list string) :
  forall idx, map fst (indexedFrom idx files) = seq idx (List.length files).
Proof. induction files; intros; simpl; [reflexivity | now rewrite IHfiles]. Qed.

Lemma indexedFrom_snd (files : list string) :
  forall idx, map snd (indexedFrom idx files) = files.
Proof. induction files; intros; simpl; [reflexivity | now rewrite IHfiles]. Qed.

Lemma indexedFrom_nth (files : list string) :
  forall idx k p,
    nth_error files k = Some p -> nth_error (indexedFrom idx files) k = Some (idx + k, p).
Proof.
  induction files as [|q rest IH]; intros idx k p H.
  - destruct k; discriminate.
  - destruct k as [|k]; simpl in *.
    + injection H as ->. now rewrite Nat.add_0_r.
    + rewrite (IH (S idx) k p H). do 2 f_equal. lia.
Qed.

(** ** The world only grows *)

Lemma extend_empty_l (d : World) : extend emptyWorld d = d.
Proof. now destruct d. Qed.

Lemma extend_empty_r (w : World) : extend w emptyWorld = w.
Proof.
  destruct w; unfold extend; simpl.
  now rewrite !app_nil_r, orb_false_r, !Nat.add_0_r.
Qed.

Lemma extend_assoc (a b c : World) : extend (extend a b) c = extend a (extend b c).
Proof.
  unfold extend; simpl.
  now rewrite <- !app_assoc, <- orb_assoc, <- !Nat.add_assoc.
Qed.

Lemma Writes_run {A : Type} (c : M A) (w : World) (r : Result A) (d : World) :
  Writes c -> c emptyWorld = (r, d) -> c w = (r, extend w d).
Proof. intros H E. rewrite (H w), E. reflexivity. Qed.

Lemma Writes_ret {A : Type} (a : A) : Writes (ret a).
Proof. intro w. unfold ret; simpl. now rewrite extend_empty_r. Qed.

Lemma Writes_throw {A : Type} (err : string) : Writes (@throw A err).
Proof. intro w. unfold throw; simpl. now rewrite extend_empty_r. Qed.

Lemma Writes_processExit {A : Type} (code : nat) : Writes (@processExit A code).
Proof. intro w. unfold processExit; simpl. now rewrite extend_empty_r. Qed.

Ltac world_eq :=
  intros [s e ws bi bs fc]; unfold extend; simpl;
  rewrite ?app_nil_r, ?orb_false_r, ?orb_true_r, ?Nat.add_0_r, ?Nat.add_1_r; reflexivity.

Lemma Writes_outputStream_write (x : Written) : Writes (outputStream_write x).
Proof. world_eq. Qed.

Lemma Writes_outputStream_end : Writes outputStream_end.
Proof. world_eq. Qed.

Lemma Writes_console_warn (msg : string) : Writes (console_warn msg).
Proof. world_eq. Qed.

Lemma Writes_bar_increment : Writes bar_increment.
Proof. world_eq. Qed.

Lemma Writes_bar_stop : Writes bar_stop.
Proof. world_eq. Qed.

Lemma Writes_fs_called (c : FsCall) : Writes (fs_called c).
Proof. world_eq. Qed.

Lemma Writes_bind {A B : Type} (c : M A) (k : A -> M B) :
  Writes c -> (forall a, Writes (k a)) -> Writes (bind c k).
Proof.
  intros Hc Hk w. unfold bind.
  destruct (c emptyWorld) as [r d] eqn:E.
  rewrite (Writes_run c w r d Hc E).
  destruct r as [a|err|code]; simpl; try reflexivity.
  rewrite (Hk a (extend w d)), (Hk a d). simpl.
  now rewrite extend_assoc.
Qed.

Lemma Writes_tryCatch {A : Type} (c : M A) (h : string -> M A) :
  Writes c -> (forall err, Writes (h err)) -> Writes (tryCatch c h).
Proof.
  intros Hc Hh w. unfold tryCatch.
  destruct (c emptyWorld) as [r d] eqn:E.
  rewrite (Writes_run c w r d Hc E).
  destruct r as [a|err|code]; simpl; try reflexivity.
  rewrite (Hh err (extend w d)), (Hh err d). simpl.
  now rewrite extend_assoc.
Qed.

Lemma Writes_whenBar (bar : bool) (c : M unit) : Writes c -> Writes (whenBar bar c).
Proof. destruct bar; simpl; [trivial | intros _; apply Writes_ret]. Qed.

Lemma Stays_ret {A : Type} (a : A) : Stays (ret a).
Proof. intros code; discriminate. Qed.

Lemma Stays_throw {A : Type} (err : string) : Stays (@throw A err).
Proof. intros code; discriminate. Qed.

Lemma Stays_bind {A B : Type} (c : M A) (k : A -> M B) :
  Writes c -> Stays c -> (forall a, Writes (k a)) -> (forall a, Stays (k a)) ->
  Stays (bind c k).
Proof.
  intros Wc Sc Wk Sk code. unfold bind.
  destruct (c emptyWorld) as [r d] eqn:E.
  destruct r as [a|err|code']; simpl; try discriminate.
  - rewrite (Wk a d). simpl. apply Sk.
  - specialize (Sc code'). rewrite E in Sc. now contradict Sc.
Qed.

Lemma Stays_tryCatch {A : Type} (c : M A) (h : string -> M A) :
  Stays c -> (forall err, Writes (h err)) -> (forall err, Stays (h err)) ->
  Stays (tryCatch c h).
Proof.
  intros Sc Wh Sh code. unfold tryCatch.
  destruct (c emptyWorld) as [r d] eqn:E.
  destruct r as [a|err|code']; simpl; try discriminate.
  - rewrite (Wh err d). simpl. apply Sh.
  - specialize (Sc code'). rewrite E in Sc. now contradict Sc.
Qed.

Lemma Returns_tryCatch {A : Type} (c : M A) (h : string -> M A) :
  Stays c -> (forall err, Writes (h err)) -> (forall err, Returns (h err)) ->
  Returns (tryCatch c h).
Proof.
  intros Sc Wh Rh. unfold Returns, tryCatch.
  destruct (c emptyWorld) as [r d] eqn:E.
  destruct r as [a|err|code']; simpl.
  - now exists a.
  - rewrite (Wh err d). simpl. apply Rh.
  - specialize (Sc code'). rewrite E in Sc. now contradict Sc.
Qed.

Lemma Returns_bind {A B : Type} (c : M A) (k : A -> M B) :
  Returns c -> (forall a, Writes (k a)) -> (forall a, Returns (k a)) ->
  Returns (bind c k).
Proof.
  intros [a Ha] Wk Rk. unfold Returns, bind.
  destruct (c emptyWorld) as [r d] eqn:E. simpl in Ha. subst r.
  rewrite (Wk a d). simpl. apply Rk.
Qed.

Lemma Returns_Stays {A : Type} (c : M A) : Returns c -> Stays c.
Proof. intros [a Ha] code. rewrite Ha. discriminate. Qed.

Lemma Returns_ret {A : Type} (a : A) : Returns (ret a).
Proof. now exists a. Qed.

Lemma tryCatch_bind_Ok {A B : Type} (c : M A) (k : A -> M B) (h : string -> M B)
      (w w' : World) (a : A) :
  c w = (Ok a, w') -> tryCatch (bind c k) h w = tryCatch (k a) h w'.
Proof. intros E. unfold tryCatch, bind. now rewrite E. Qed.

Lemma bind_Ok {A B : Type} (c : M A) (k : A -> M B) (w w' : World) (a : A) :
  c w = (Ok a, w') -> bind c k w = k a w'.
Proof. intros E. unfold bind. now rewrite E. Qed.

Create HintDb js discriminated.
#[local] Hint Resolve Writes_ret Writes_throw Writes_outputStream_write
  Writes_outputStream_end Writes_console_warn Writes_bar_increment Writes_bar_stop
  Writes_fs_called Writes_whenBar Stays_ret Stays_throw Returns_ret Returns_Stays : js.
#[local] Hint Extern 2 (Returns _) => (eexists; reflexivity) : js.
#[local] Hint Extern 3 (Stays _) => (apply Returns_Stays; eexists; reflexivity) : js.

Ltac writes :=
  repeat first
    [ progress intros
    | solve [auto with js]
    | apply Writes_bind
    | apply Writes_tryCatch
    | match goal with
      | |- Writes (match ?x with _ => _ end) => destruct x
      | |- Writes (if ?x then _ else _) => destruct x
      | |- Writes (let '(_, _) := ?x in _) => destruct x
      end ].

Ltac stays :=
  repeat first
    [ progress intros
    | solve [auto with js]
    | apply Stays_bind
    | apply Stays_tryCatch
    | solve [writes]
    | match goal with
      | |- Stays (match ?x with _ => _ end) => destruct x
      | |- Stays (if ?x then _ else _) => destruct x
      | |- Stays (let '(_, _) := ?x in _) => destruct x
      end ].

Lemma Quiet_bind {A B : Type} (c : M A) (k : A -> M B) :
  Quiet c -> (forall a, Writes (k a)) -> (forall a, Quiet (k a)) -> Quiet (bind c k).
Proof.
  intros [Q1 Q2] Wk Qk. unfold Quiet, bind.
  destruct (c emptyWorld) as [r d] eqn:E. simpl in Q1, Q2.
  destruct r as [a|err|code]; simpl; auto.
  rewrite (Wk a d). simpl. destruct (Qk a) as [-> ->]. lia.
Qed.

Lemma Quiet_tryCatch {A : Type} (c : M A) (h : string -> M A) :
  Quiet c -> (forall err, Writes (h err)) -> (forall err, Quiet (h err)) ->
  Quiet (tryCatch c h).
Proof.
  intros [Q1 Q2] Wh Qh. unfold Quiet, tryCatch.
  destruct (c emptyWorld) as [r d] eqn:E. simpl in Q1, Q2.
  destruct r as [a|err|code]; simpl; auto.
  rewrite (Wh err d). simpl. destruct (Qh err) as [-> ->]. lia.
Qed.

#[local] Hint Extern 2 (Quiet _) => (split; reflexivity) : js.

Ltac quiet :=
  repeat first
    [ progress intros
    | solve [auto with js]
    | apply Quiet_bind
    | apply Quiet_tryCatch
    | solve [writes]
    | match goal with
      | |- Quiet (match ?x with _ => _ end) => destruct x
      | |- Quiet (if ?x then _ else _) => destruct x
      | |- Quiet (let '(_, _) := ?x in _) => destruct x
      end ].

Section ProgramEffects.

Variable fs : string -> FileState.
Variable path_join : string -> string -> string.

Lemma Writes_fsp_stat p : Writes (fsp_stat fs p).
Proof. unfold fsp_stat. writes. Qed.

Lemma Stays_fsp_stat p : Stays (fsp_stat fs p).
Proof. unfold fsp_stat. stays. Qed.

Lemma Writes_isBinaryFile p : Writes (isBinaryFile fs p).
Proof. unfold isBinaryFile, fsp_open, fd_read, fd_close. writes. Qed.

Lemma Returns_isBinaryFile p : Returns (isBinaryFile fs p).
Proof.
  unfold isBinaryFile.
  destruct (String.eqb _ _); [apply Returns_ret|].
  apply Returns_tryCatch; [|writes|intros; apply Returns_ret].
  unfold fsp_open, fd_read, fd_close. stays.
Qed.

Lemma Writes_onData maxSize st chunk : Writes (onData maxSize st chunk).
Proof. unfold onData. writes. Qed.

Lemma Returns_onData maxSize st chunk : Returns (onData maxSize st chunk).
Proof.
  unfold onData, Returns.
  destruct (truncated st); [now eexists|].
  destruct (_ >? _)%Z; now eexists.
Qed.

Lemma Writes_onDataAll maxSize chunks : forall st, Writes (onDataAll maxSize st chunks).
Proof.
  induction chunks as [|c rest IH]; intros st; simpl.
  - writes.
  - apply Writes_bind; [apply Writes_onData | apply IH].
Qed.

Lemma Returns_onDataAll maxSize chunks : forall st, Returns (onDataAll maxSize st chunks).
Proof.
  induction chunks as [|c rest IH]; intros st; simpl.
  - apply Returns_ret.
  - apply Returns_bind; [apply Returns_onData | intros; apply Writes_onDataAll | apply IH].
Qed.

Lemma Writes_settle st last : Writes (settle st last).
Proof. unfold settle. writes. Qed.

Lemma Stays_settle st last : Stays (settle st last).
Proof. unfold settle. stays. Qed.

Lemma Writes_streamFrom rs maxSize : Writes (streamFrom rs maxSize).
Proof.
  unfold streamFrom. apply Writes_bind; [apply Writes_onDataAll | intros; apply Writes_settle].
Qed.

Lemma Stays_streamFrom rs maxSize : Stays (streamFrom rs maxSize).
Proof.
  unfold streamFrom.
  apply Stays_bind;
    [apply Writes_onDataAll | apply Returns_Stays, Returns_onDataAll
     | intros; apply Writes_settle | intros; apply Stays_settle].
Qed.

Lemma Writes_streamFileWithLimit p maxSize : Writes (streamFileWithLimit fs p maxSize).
Proof.
  unfold streamFileWithLimit. apply Writes_bind; [writes | intros; apply Writes_streamFrom].
Qed.

Lemma Stays_streamFileWithLimit p maxSize : Stays (streamFileWithLimit fs p maxSize).
Proof.
  unfold streamFileWithLimit.
  apply Stays_bind;
    [writes | apply Returns_Stays; now eexists
     | intros; apply Writes_streamFrom | intros; apply Stays_streamFrom].
Qed.

#[local] Hint Resolve Writes_fsp_stat Stays_fsp_stat Writes_isBinaryFile Returns_isBinaryFile
  Writes_streamFileWithLimit Stays_streamFileWithLimit : js.

Variable repoRoot : string.
Variable maxSize : Z.
Variable bar : bool.

Lemma Writes_writeOne idx p : Writes (writeOne fs path_join repoRoot maxSize idx p).
Proof. unfold writeOne. writes. Qed.

Lemma Returns_writeOne idx p : Returns (writeOne fs path_join repoRoot maxSize idx p).
Proof.
  unfold writeOne.
  apply Returns_tryCatch; [stays | writes |].
  intros err. apply Returns_bind; [now eexists | writes | intros; apply Returns_ret].
Qed.

Lemma Quiet_onDataAll chunks : forall st, Quiet (onDataAll maxSize st chunks).
Proof.
  induction chunks as [|c rest IH]; intros st; simpl.
  - quiet.
  - apply Quiet_bind; [unfold onData; quiet | intros; apply Writes_onDataAll | apply IH].
Qed.

Lemma Quiet_writeOne idx p : Quiet (writeOne fs path_join repoRoot maxSize idx p).
Proof.
  unfold writeOne, fsp_stat, isBinaryFile, fsp_open, fd_read, fd_close,
    streamFileWithLimit, streamFrom, settle.
  pose proof Quiet_onDataAll. pose proof Writes_onDataAll. quiet.
Qed.

(** One pass of the loop, in terms of what the entry writes and of
    whether its [try] block completed. *)
Lemma writeOne_run idx p w :
  exists d,
    writeOne fs path_join repoRoot maxSize idx p w
    = (Ok (entryCompleted fs path_join repoRoot maxSize (idx, p)), extend w d)
    /\ sink d = entryWrites fs path_join repoRoot maxSize (idx, p)
    /\ barIncrements d = 0 /\ barStops d = 0.
Proof.
  destruct (Returns_writeOne idx p) as [b Hb].
  destruct (Quiet_writeOne idx p) as [Q1 Q2].
  exists (snd (writeOne fs path_join repoRoot maxSize idx p emptyWorld)).
  rewrite (Writes_writeOne idx p w).
  unfold entryCompleted, entryWrites; simpl. rewrite Hb.
  repeat split; assumption.
Qed.

Lemma writeFilesFrom_run files :
  forall idx w,
  exists w',
    writeFilesFrom fs path_join repoRoot maxSize bar idx files w = (Ok tt, w')
    /\ sink w' = sink w ++ flat_map (entryWrites fs path_join repoRoot maxSize)
                                    (indexedFrom idx files)
    /\ barIncrements w'
       = barIncrements w
         + (if bar then completedCount fs path_join repoRoot maxSize (indexedFrom idx files)
            else 0)
    /\ barStops w' = barStops w.
Proof.
  unfold completedCount.
  induction files as [|p rest IH]; intros idx w; simpl.
  - exists w. rewrite app_nil_r. repeat split; destruct bar; lia.
  - destruct (writeOne_run idx p w) as (d & E & Hs & Hi & Hst).
    unfold bind at 1. rewrite E.
    destruct (entryCompleted fs path_join repoRoot maxSize (idx, p)) eqn:C.
    + destruct bar; simpl.
      * destruct (IH (S idx) (snd (bar_increment (extend w d)))) as (w' & E' & Hs' & Hi' & Hst').
        exists w'. unfold bind at 1. simpl in *. rewrite E'.
        rewrite Hs', Hi', Hst', Hs, Hi, Hst, <- app_assoc.
        repeat split; lia.
      * destruct (IH (S idx) (extend w d)) as (w' & E' & Hs' & Hi' & Hst').
        exists w'. unfold bind at 1. simpl in *. rewrite E'.
        rewrite Hs', Hi', Hst', Hs, Hi, Hst, <- app_assoc.
        repeat split; lia.
    + destruct (IH (S idx) (extend w d)) as (w' & E' & Hs' & Hi' & Hst').
      exists w'. unfold bind at 1. simpl in *. rewrite E'.
      rewrite Hs', Hi', Hst', Hs, Hi, Hst, <- app_assoc.
      repeat split; destruct bar; lia.
Qed.

Lemma writeFilesWithIndex_run files w :
  exists w',
    writeFilesWithIndex fs path_join repoRoot maxSize bar files w = (Ok tt, w')
    /\ sink w' = sink w ++ flat_map (entryWrites fs path_join repoRoot maxSize)
                                    (indexedFrom 0 files)
    /\ barIncrements w'
       = barIncrements w
         + (if bar then completedCount fs path_join repoRoot maxSize (indexedFrom 0 files)
            else 0)
    /\ barStops w' = barStops w + (if bar then 1 else 0).
Proof.
  destruct (writeFilesFrom_run files 0 w) as (w1 & E & Hs & Hi & Hst).
  unfold writeFilesWithIndex, bind. rewrite E.
  destruct bar; simpl.
  - eexists; split; [reflexivity|]. simpl. repeat split; try assumption. lia.
  - exists w1. repeat split; try assumption. lia.
Qed.

Lemma isBinaryFile_sink p w : sink (snd (isBinaryFile fs p w)) = sink w.
Proof.
  unfold isBinaryFile, tryCatch, bind, fsp_open, fd_read, fd_close, fs_called.
  destruct (String.eqb _ _); [reflexivity|]. simpl.
  destruct (openResult (fs p)); [|reflexivity]. simpl.
  destruct (readResult (fs p)); [|reflexivity]. simpl.
  destruct (closeResult (fs p)); reflexivity.
Qed.

Lemma entryWrites_stat_failed idx p :
  statResult (fs (path_join repoRoot p)) = None ->
  entryWrites fs path_join repoRoot maxSize (idx, p) = [].
Proof.
  intros H. unfold entryWrites, writeOne, tryCatch, bind, fsp_stat, fs_called. simpl.
  rewrite H. reflexivity.
Qed.

Lemma entryCompleted_stat_failed idx p :
  statResult (fs (path_join repoRoot p)) = None ->
  entryCompleted fs path_join repoRoot maxSize (idx, p) = false.
Proof.
  intros H. unfold entryCompleted, writeOne, tryCatch, bind, fsp_stat, fs_called. simpl.
  rewrite H. reflexivity.
Qed.

Lemma entryWrites_stat_ok idx p st :
  statResult (fs (path_join repoRoot p)) = Some st ->
  exists payload,
    entryWrites fs path_join repoRoot maxSize (idx, p)
    = WStr (sectionHeader (idx + 1)) :: WStr (p ++ JS.LF)%string :: payload.
Proof.
  intros H. unfold entryWrites, writeOne. simpl fst. simpl snd.
  set (abs := path_join repoRoot p) in *.
  assert (E1 : fsp_stat fs abs emptyWorld
               = (Ok st, snd (fs_called (CallStat abs) emptyWorld))).
  { unfold fsp_stat, bind. simpl. rewrite H. reflexivity. }
  rewrite (tryCatch_bind_Ok _ _ _ _ _ _ E1).
  destruct (Returns_isBinaryFile abs) as [b Hb].
  pose proof (isBinaryFile_sink abs (snd (fs_called (CallStat abs) emptyWorld))) as HB.
  destruct (isBinaryFile fs abs (snd (fs_called (CallStat abs) emptyWorld)))
    as [rb w2] eqn:E2.
  assert (rb = Ok b) as ->.
  { rewrite (Writes_isBinaryFile abs) in E2. rewrite Hb in E2. now injection E2. }
  rewrite (tryCatch_bind_Ok _ _ _ _ _ _ E2).
  erewrite tryCatch_bind_Ok by reflexivity.
  erewrite tryCatch_bind_Ok by reflexivity.
  match goal with |- context [tryCatch ?c ?h ?w] =>
    assert (W : Writes (tryCatch c h)) by (destruct b; writes);
    rewrite (W w)
  end.
  simpl in HB |- *. rewrite HB. simpl. eexists. reflexivity.
Qed.

End ProgramEffects.

(** ** Document Assembler *)

(** The progress bar, for every input: one increment per entry whose
    [try] block ran to the end, none for an entry whose [stat] fails, and
    one [stop]. *)
Lemma writeFilesWithIndex_progress fs path_join repoRoot maxSize files w :
  let run := writeFilesWithIndex fs path_join repoRoot maxSize true files w in
  fst run = Ok tt
  /\ barIncrements (snd run)
     = barIncrements w + completedCount fs path_join repoRoot maxSize (indexedFrom 0 files)
  /\ barStops (snd run) = barStops w + 1.
Proof.
  destruct (writeFilesWithIndex_run fs path_join repoRoot maxSize true files w)
    as (w' & E & _ & Hi & Hst).
  simpl. rewrite E. auto.
Qed.

(** C1 (as amended).  [writeFilesWithIndex] always returns, and the sink
    receives, entry after entry in list order, what each entry writes.
    For the entry [p] at position [k] of the list: when its [stat] fails
    nothing at all is written for it; otherwise its section starts with
    the separator line carrying [k + 1], its position in the list and
    therefore its number in the table of contents, whatever happened to
    the entries before it, followed by the path line. *)
Theorem writeFilesWithIndex_section_numbers
        fs path_join repoRoot maxSize bar files w k p :
  nth_error files k = Some p ->
  let run := writeFilesWithIndex fs path_join repoRoot maxSize bar files w in
  fst run = Ok tt
  /\ sink (snd run)
     = sink w ++ flat_map (entryWrites fs path_join repoRoot maxSize) (indexedFrom 0 files)
  /\ nth_error (indexedFrom 0 files) k = Some (k, p)
  /\ tocEntry (k, p) = (JS.toString (k + 1) ++ ". " ++ p ++ JS.LF)%string
  /\ match statResult (fs (path_join repoRoot p)) with
     | None => entryWrites fs path_join repoRoot maxSize (k, p) = []
     | Some _ =>
         exists payload,
           entryWrites fs path_join repoRoot maxSize (k, p)
           = WStr (sectionHeader (k + 1)) :: WStr (p ++ JS.LF)%string :: payload
     end.
Proof.
  intros H run.
  destruct (writeFilesWithIndex_run fs path_join repoRoot maxSize bar files w)
    as (w' & E & Hs & _).
  subst run. rewrite E. simpl.
  repeat split; try assumption.
  - apply (indexedFrom_nth files 0 k p H).
  - destruct (statResult (fs (path_join repoRoot p))) eqn:S.
    + eapply entryWrites_stat_ok; eassumption.
    + now apply entryWrites_stat_failed.
Qed.

Lemma writeFilesWithIndex_section_numbers_witness :
  nth_error ["gone.txt"; "b.txt"] 1 = Some "b.txt"
  /\ sink (snd (writeFilesWithIndex fsOneFile joinPlain "r" 100 false
                                    ["gone.txt"; "b.txt"] emptyWorld))
     = flat_map (entryWrites fsOneFile joinPlain "r" 100)
                (indexedFrom 0 ["gone.txt"; "b.txt"])
  /\ exists payload,
       entryWrites fsOneFile joinPlain "r" 100 (1, "b.txt")
       = WStr (sectionHeader 2) :: WStr ("b.txt" ++ JS.LF)%string :: payload.
Proof.
  split; [reflexivity|].
  destruct (writeFilesWithIndex_section_numbers
              fsOneFile joinPlain "r" 100%Z false ["gone.txt"; "b.txt"] emptyWorld
              1 "b.txt" eq_refl) as (_ & Hs & _ & _ & Hp).
  split; [exact Hs | exact Hp].
Defined.

(** C1, as the specification states it, fails: with a first entry whose
    [stat] fails, the only file written is [b.txt]; no file was written
    before it, yet its separator line carries 2, not 1. *)
Lemma section_index_counts_written_refuted :
  sink (snd (writeFilesWithIndex fsOneFile joinPlain "r" 100 false
                                 ["gone.txt"; "b.txt"] emptyWorld))
  = [WStr (sectionHeader 2); WStr ("b.txt" ++ JS.LF)%string; WBuf [x68; x69]; WStr JS.LF]
  /\ ~ sectionIndexCountsWritten fsOneFile joinPlain "r" 100 ["gone.txt"; "b.txt"].
Proof.
  split; [reflexivity|].
  intros H. destruct (H 1 "b.txt" eq_refl eq_refl) as [payload E].
  vm_compute in E. discriminate E.
Qed.

(** C4, at the input of the repository's own test for inaccessible files:
    one entry is attempted and skipped, the bar is stopped once, and it
    was never incremented. *)
Theorem writeFilesWithIndex_skip_misses_increment :
  let run := writeFilesWithIndex fsOneFile joinPlain "r" 1024 true
                                 ["nonexistent.txt"] emptyWorld in
  fst run = Ok tt
  /\ List.length ["nonexistent.txt"] = 1
  /\ barIncrements (snd run) = 0
  /\ barStops (snd run) = 1
  /\ sink (snd run) = [].
Proof. vm_compute. repeat split. Qed.

(** C8.  The table of contents is the header line, then for the entry at
    every position [k] of the resolved list, in order, the line
    [k+1. path], then an empty line; and whatever the state of the files,
    it is the second thing [main] writes, right after the preamble. *)
Theorem tableOfContents_numbering
        fs path_join repoRoot preambleText files maxSize bar w :
  buildTableOfContents files
  = ("Table of Contents:" ++ JS.LF
       ++ joinAll (map (fun entry =>
                          JS.toString (fst entry + 1) ++ ". " ++ snd entry ++ JS.LF)
                       (indexedFrom 0 files))
       ++ JS.LF)%string
  /\ map fst (indexedFrom 0 files) = seq 0 (List.length files)
  /\ map snd (indexedFrom 0 files) = files
  /\ exists sections,
       sink (snd (main_write fs path_join repoRoot preambleText files maxSize bar w))
       = sink w ++ WStr preambleText :: WStr (buildTableOfContents files) :: sections.
Proof.
  split; [|split; [apply indexedFrom_fst | split; [apply indexedFrom_snd|]]].
  - unfold buildTableOfContents, JS.forEach. rewrite forEachFrom_tocLines.
    unfold tocHeader. now rewrite !append_assoc.
  - unfold main_write.
    erewrite bind_Ok by reflexivity.
    erewrite bind_Ok by reflexivity.
    match goal with |- context [bind ?c ?k ?w0] =>
      assert (W : Writes (bind c k));
        [| rewrite (W w0); exists (sink (snd (bind c k emptyWorld))) ]
    end.
    + apply Writes_bind; [|writes].
      apply Writes_tryCatch; [|intros; apply Writes_processExit].
      unfold writeFilesWithIndex. apply Writes_bind; [|writes].
      generalize 0. induction files as [|f rest IH]; intros n; simpl; [writes|].
      apply Writes_bind; [apply Writes_writeOne|]. intros c.
      apply Writes_bind; [destruct c; writes | intros; apply IH].
    + simpl. now rewrite <- !app_assoc.
Qed.

(** C9.  With an empty resolved set [main] writes the preamble, the
    table of contents reduced to its header line and the empty line, no
    section at all, and the end marker; then it ends the stream. *)
Theorem main_write_empty fs path_join repoRoot preambleText maxSize bar w :
  let run := main_write fs path_join repoRoot preambleText [] maxSize bar w in
  fst run = Ok tt
  /\ sink (snd run)
     = sink w ++ [WStr preambleText;
                  WStr ("Table of Contents:" ++ JS.LF ++ JS.LF)%string;
                  WStr ("--END--" ++ JS.LF)%string]
  /\ sinkEnded (snd run) = true.
Proof.
  destruct w, bar; simpl; rewrite <- !app_assoc; repeat split.
Qed.

(** ** The byte ceiling *)

(** C10.  When [--max-size] is absent, or [parseInt] makes NaN or 0 of
    its text, the ceiling handed to the Bounded Stream Writer is
    1048576. *)
Theorem main_maxSize_fallback (opts_maxSize : option string) :
  opts_maxSize = None
  \/ (exists s, opts_maxSize = Some s
                /\ (JS.parseInt s = None \/ JS.parseInt s = Some 0%Z)) ->
  main_maxSize opts_maxSize = 1048576%Z.
Proof.
  intros [-> | (s & -> & H)]; [reflexivity|].
  unfold main_maxSize.
  destruct s as [|c s]; [reflexivity|]. simpl JS.truthy. cbv iota.
  destruct H as [-> | ->]; reflexivity.
Qed.

(** In particular [--max-size 0] truncates at 1048576 bytes. *)
Lemma main_maxSize_fallback_witness :
  (Some "0" = None
   \/ (exists s, Some "0" = Some s /\ (JS.parseInt s = None \/ JS.parseInt s = Some 0%Z)))
  /\ main_maxSize (Some "0") = 1048576%Z.
Proof.
  assert (H : Some "0" = None
              \/ (exists s, Some "0" = Some s
                            /\ (JS.parseInt s = None \/ JS.parseInt s = Some 0%Z))).
  { right. exists "0". split; [reflexivity | right; reflexivity]. }
  split; [exact H | exact (main_maxSize_fallback (Some "0") H)].
Defined.

(** ** Pattern Loader *)

Lemma getIgnoreList_fold (win32 : bool) (lines : list string) :
  forall acc,
    fold_left
      (fun patterns line =>
         let trimmed := JS.trim line in
         if negb (JS.truthy trimmed) || JS.startsWith "#" trimmed then patterns
         else
           let pattern := if win32 then JS.slashesToBackslashes trimmed else trimmed in
           patterns ++ [pattern])
      lines acc
    = acc ++ map (hostPattern win32)
                 (filter (fun t => JS.truthy t && negb (JS.startsWith "#" t))
                         (map JS.trim lines)).
Proof.
  induction lines as [|line rest IH]; intros acc; simpl.
  - now rewrite app_nil_r.
  - rewrite IH.
    destruct (JS.truthy (JS.trim line)); simpl; [|reflexivity].
    destruct (JS.startsWith "#" (JS.trim line)); simpl; [reflexivity|].
    now rewrite <- app_assoc.
Qed.

Lemma startsWith_bang_host (win32 : bool) (t : string) :
  JS.startsWith "!" (hostPattern win32 t) = JS.startsWith "!" t.
Proof.
  destruct win32; [|reflexivity].
  destruct t as [|c t]; [reflexivity|]. simpl.
  destruct (Ascii.eqb c "/") eqn:E; [|reflexivity].
  apply Ascii.eqb_eq in E. now subst c.
Qed.

Lemma slice1_host (win32 : bool) (t : string) :
  JS.slice1 (hostPattern win32 t) = hostPattern win32 (JS.slice1 t).
Proof. destruct win32, t; reflexivity. Qed.

Lemma startsWith_bang_kept (t : string) :
  JS.startsWith "!" t = true -> JS.truthy t && negb (JS.startsWith "#" t) = true.
Proof.
  destruct t as [|c t]; [discriminate|]. simpl. intros E.
  apply Ascii.eqb_eq in E. now subst c.
Qed.

(** The two sequences as the filters of [main] give them. *)
Lemma ignoreSpec_filters (win32 : bool) (raw : string) :
  let trimmed := map JS.trim (JS.splitLines raw) in
  let spec := ignoreSpec win32 raw in
  reincludePatterns spec
  = map (fun t => if win32 then JS.slashesToBackslashes (JS.slice1 t) else JS.slice1 t)
        (filter (fun t => JS.startsWith "!" t) trimmed)
  /\ excludePatterns spec
     = map (fun t => if win32 then JS.slashesToBackslashes t else t)
           (filter (fun t => JS.truthy t && negb (JS.startsWith "#" t)
                             && negb (JS.startsWith "!" t))
                   trimmed).
Proof.
  simpl. unfold negativePatterns, positivePatterns, getIgnoreList.
  rewrite getIgnoreList_fold. simpl.
  induction (map JS.trim (JS.splitLines raw)) as [|t rest [IHn IHp]]; [split; reflexivity|].
  simpl.
  destruct (JS.startsWith "!" t) eqn:B.
  - rewrite (startsWith_bang_kept t B). simpl.
    rewrite startsWith_bang_host, B. simpl.
    rewrite IHn, IHp, slice1_host. split; reflexivity.
  - rewrite andb_true_r.
    destruct (JS.truthy t && negb (JS.startsWith "#" t)); simpl.
    + rewrite startsWith_bang_host, B. simpl. rewrite IHn, IHp. split; reflexivity.
    + split; assumption.
Qed.

(** [s.replace(/\//g, '\\')] character by character. *)
Lemma slashesToBackslashes_map (s : string) :
  JS.slashesToBackslashes s
  = string_of_list_ascii
      (map (fun c => if Ascii.eqb c "/" then "\"%char else c) (list_ascii_of_string s)).
Proof. induction s as [|c s IH]; simpl; [reflexivity | now rewrite IH]. Qed.

(** C6.  With the trimmed lines of the ignore file in order: a line
    made of [!] and a rest gives the re-include sequence that rest, the
    mark gone, and gives the exclude sequence nothing; an empty line and
    a line that begins with [#] give nothing to either; every other line
    gives the exclude sequence itself and the re-include sequence
    nothing.  On win32 every [/] of a pattern is written [\]. *)
Theorem ignoreSpec_invariant (win32 : bool) (raw : string) :
  let trimmed := map JS.trim (JS.splitLines raw) in
  let spec := ignoreSpec win32 raw in
  let host t :=
    if win32
    then string_of_list_ascii
           (map (fun c => if Ascii.eqb c "/" then "\"%char else c) (list_ascii_of_string t))
    else t in
  reincludePatterns spec
  = flat_map (fun t => match t with
                       | String "!" rest => [host rest]
                       | _ => []
                       end)
             trimmed
  /\ excludePatterns spec
     = flat_map (fun t => match t with
                          | EmptyString => []
                          | String "#" _ => []
                          | String "!" _ => []
                          | String _ _ => [host t]
                          end)
                trimmed.
Proof.
  intros trimmed spec host.
  destruct (ignoreSpec_filters win32 raw) as [Hn Hp].
  fold trimmed in Hn, Hp. fold spec in Hn, Hp. rewrite Hn, Hp. clear Hn Hp.
  assert (Hh : forall t, (if win32 then JS.slashesToBackslashes t else t) = host t).
  { intros t. unfold host. destruct win32; [apply slashesToBackslashes_map | reflexivity]. }
  clearbody host.
  induction trimmed as [|t rest [IHn IHp]]; [split; reflexivity|].
  cbn [filter map flat_map]. rewrite <- IHn, <- IHp. clear IHn IHp.
  destruct t as [|c t]; [split; reflexivity|].
  destruct (Ascii.eqb_spec c "!") as [-> | Nb].
  - split; [|reflexivity].
    change (JS.startsWith "!" (String "!" t)) with true.
    cbn [map app]. rewrite Hh. reflexivity.
  - destruct (Ascii.eqb_spec c "#") as [-> | Nh]; [split; reflexivity|].
    assert (B : JS.startsWith "!" (String c t) = false)
      by (now apply Ascii.eqb_neq).
    assert (H : JS.startsWith "#" (String c t) = false)
      by (now apply Ascii.eqb_neq).
    rewrite B, H. cbn [JS.truthy andb negb map app]. rewrite Hh.
    destruct c as [[] [] [] [] [] [] [] []];
      try (split; reflexivity); contradiction.
Qed.

(** ** Binary Classifier *)

Lemma hasNullByte_scan (data pad : list byte) :
  forall pre,
    existsb (fun i => Byte.eqb (nth i (pre ++ data ++ pad) x01) x00)
            (seq (List.length pre) (List.length data))
    = existsb (fun b => Byte.eqb b x00) data.
Proof.
  induction data as [|b data IH]; intros pre; simpl; [reflexivity|].
  rewrite app_nth2, Nat.sub_diag by lia. simpl. f_equal.
  specialize (IH (pre ++ [b])).
  rewrite <- app_assoc, length_app, Nat.add_1_r in IH. exact IH.
Qed.

Lemma hasNullByte_read (content : list byte) :
  let data := firstn 512 content in
  hasNullByte (data ++ skipn (List.length data) (Buffer_alloc 512)) (List.length data)
  = existsb (fun b => Byte.eqb b x00) data.
Proof. intros data. unfold hasNullByte. apply (hasNullByte_scan data _ []). Qed.

Lemma existsb_null_In (data : list byte) :
  existsb (fun b => Byte.eqb b x00) data = true <-> In x00 data.
Proof.
  rewrite existsb_exists. split.
  - intros (b & Hin & E). apply Byte.byte_dec_bl in E. now subst b.
  - intros H. exists x00. split; [assumption | reflexivity].
Qed.

(** C7.  A path whose extension is [.bin] in any letter case is binary,
    and no call on the file system is made for it.  For any other path:
    when the file is opened, read and closed, the answer is [true]
    exactly when a zero byte is among the first 512 bytes of the content
    (among all of them when there are fewer), and when one of these calls
    fails the answer is [false]; in every case the function returns. *)
Theorem isBinaryFile_classifies (fs : string -> FileState) (filePath : string) (w : World) :
  (JS.toLowerCase (Path.extname filePath) = ".bin" ->
   isBinaryFile fs filePath w = (Ok true, w))
  /\ (JS.toLowerCase (Path.extname filePath) <> ".bin" ->
      forall content,
        openResult (fs filePath) = true ->
        readResult (fs filePath) = Some content ->
        closeResult (fs filePath) = true ->
        exists answer,
          fst (isBinaryFile fs filePath w) = Ok answer
          /\ (answer = true <-> In x00 (firstn 512 content)))
  /\ (JS.toLowerCase (Path.extname filePath) <> ".bin" ->
      openResult (fs filePath) = false
      \/ readResult (fs filePath) = None
      \/ closeResult (fs filePath) = false ->
      fst (isBinaryFile fs filePath w) = Ok false)
  /\ exists answer, fst (isBinaryFile fs filePath w) = Ok answer.
Proof.
  unfold isBinaryFile.
  destruct (String.eqb (JS.toLowerCase (Path.extname filePath)) ".bin") eqn:E.
  - apply String.eqb_eq in E.
    repeat split; try (intros N; now contradict N). now exists true.
  - apply String.eqb_neq in E.
    split; [intros N; now contradict E|].
    assert (Ho : forall v, openResult (fs filePath) = true ->
                 fsp_open fs filePath v = (Ok filePath, snd (fs_called (CallOpen filePath) v))).
    { intros v H. unfold fsp_open, bind. simpl. now rewrite H. }
    assert (Hr : forall v content, readResult (fs filePath) = Some content ->
                 fd_read fs filePath (Buffer_alloc 512) 512 v
                 = (Ok (List.length (firstn 512 content),
                        firstn 512 content
                          ++ skipn (List.length (firstn 512 content)) (Buffer_alloc 512)),
                    snd (fs_called (CallRead filePath) v))).
    { intros v content H. unfold fd_read, bind.
      change (fs_called (CallRead filePath) v)
        with (Ok tt, snd (fs_called (CallRead filePath) v)).
      cbv beta iota. now rewrite H. }
    assert (Hc : forall v, closeResult (fs filePath) = true ->
                 fd_close fs filePath v = (Ok tt, snd (fs_called (CallClose filePath) v))).
    { intros v H. unfold fd_close, bind. simpl. now rewrite H. }
    assert (Good : forall content,
               openResult (fs filePath) = true ->
               readResult (fs filePath) = Some content ->
               closeResult (fs filePath) = true ->
               exists answer,
                 fst (tryCatch
                        (fd <- fsp_open fs filePath ;;
                         r <- fd_read fs fd (Buffer_alloc 512) 512 ;;
                         (let '(bytesRead, buffer) := r in
                          fd_close fs fd ;; ret (hasNullByte buffer bytesRead)))
                        (fun _ => ret false) w) = Ok answer
                 /\ (answer = true <-> In x00 (firstn 512 content))).
    { intros content H1 H2 H3.
      rewrite (tryCatch_bind_Ok _ _ _ _ _ _ (Ho w H1)).
      rewrite (tryCatch_bind_Ok _ _ _ _ _ _ (Hr _ content H2)).
      cbv beta iota.
      rewrite (tryCatch_bind_Ok _ _ _ _ _ _ (Hc _ H3)).
      eexists. split; [reflexivity|].
      rewrite (hasNullByte_read content). apply existsb_null_In. }
    assert (Bad : openResult (fs filePath) = false
                  \/ readResult (fs filePath) = None
                  \/ closeResult (fs filePath) = false ->
                  fst (tryCatch
                         (fd <- fsp_open fs filePath ;;
                          r <- fd_read fs fd (Buffer_alloc 512) 512 ;;
                          (let '(bytesRead, buffer) := r in
                           fd_close fs fd ;; ret (hasNullByte buffer bytesRead)))
                         (fun _ => ret false) w) = Ok false).
    { intros H.
      destruct (openResult (fs filePath)) eqn:H1;
        [|unfold tryCatch, bind, fsp_open, fs_called; simpl; now rewrite H1].
      rewrite (tryCatch_bind_Ok _ _ _ _ _ _ (Ho w eq_refl)).
      destruct (readResult (fs filePath)) as [content|] eqn:H2.
      - rewrite (tryCatch_bind_Ok _ _ _ _ _ _ (Hr _ content eq_refl)).
        cbv beta iota.
        destruct (closeResult (fs filePath)) eqn:H3.
        + destruct H as [H | [H | H]]; discriminate H.
        + unfold tryCatch, bind, fd_close, fs_called. simpl. now rewrite H3.
      - unfold tryCatch, bind, fd_read.
        change (fs_called (CallRead filePath) (snd (fs_called (CallOpen filePath) w)))
          with (Ok tt, snd (fs_called (CallRead filePath)
                                      (snd (fs_called (CallOpen filePath) w)))).
        cbv beta iota. now rewrite H2. }
    split; [intros _; exact Good|]. split; [intros _; exact Bad|].
    destruct (openResult (fs filePath)) eqn:H1; [|eexists; apply Bad; now left].
    destruct (readResult (fs filePath)) as [content|] eqn:H2;
      [|eexists; apply Bad; right; now left].
    destruct (closeResult (fs filePath)) eqn:H3; [|eexists; apply Bad; right; now right].
    destruct (Good content eq_refl eq_refl eq_refl) as (answer & Ha & _). now exists answer.
Qed.

(** ** Bounded Stream Writer *)

Lemma sinkBytes_app (a b : list Written) : sinkBytes (a ++ b) = sinkBytes a ++ sinkBytes b.
Proof. unfold sinkBytes. apply flat_map_app. Qed.

Lemma onData_truncated (maxSize : Z) (st : Copy) (chunk : Chunk) (w : World) :
  truncated st = true -> onData maxSize st chunk w = (Ok st, w).
Proof. intros H. unfold onData. now rewrite H. Qed.

Lemma onDataAll_truncated (maxSize : Z) (chunks : list Chunk) :
  forall st w, truncated st = true -> onDataAll maxSize st chunks w = (Ok st, w).
Proof.
  induction chunks as [|c rest IH]; intros st w H; simpl; [reflexivity|].
  rewrite (bind_Ok _ _ _ _ _ (onData_truncated maxSize st c w H)). now apply IH.
Qed.

Lemma Buffer_slice0_fits (buf : Buffer) (e : Z) :
  (0 <= e <= Z.of_nat (List.length buf))%Z ->
  Buffer_slice0 buf e = firstn (Z.to_nat e) buf.
Proof.
  intros H. unfold Buffer_slice0.
  destruct (Z.ltb_spec e 0); [lia|]. now rewrite Z.min_l by lia.
Qed.

Lemma onDataAll_copy (maxSize : Z) (chunks : list Chunk) :
  forall st w,
    truncated st = false ->
    (0 <= bytesWritten st <= maxSize)%Z ->
    let total := flat_map toBuffer chunks in
    let room := Z.to_nat (maxSize - bytesWritten st) in
    exists st' w',
      onDataAll maxSize st chunks w = (Ok st', w')
      /\ sinkBytes (sink w')
         = sinkBytes (sink w)
             ++ (if (List.length total <=? room)%nat then total
                 else firstn room total ++ Utf8.encodeString TRUNCATED)
      /\ truncated st' = negb (List.length total <=? room)%nat.
Proof.
  induction chunks as [|c rest IH]; intros st w T B; simpl.
  - exists st, w. rewrite app_nil_r. auto.
  - unfold onData at 1. rewrite T.
    set (chunkBuffer := toBuffer c).
    destruct (Z.gtb_spec (bytesWritten st + Z.of_nat (List.length chunkBuffer)) maxSize)
      as [G | G].
    + (* the chunk does not fit *)
      erewrite bind_Ok by reflexivity.
      rewrite onDataAll_truncated by reflexivity.
      eexists; eexists. split; [reflexivity|]. simpl.
      rewrite length_app.
      destruct (Nat.leb_spec (List.length chunkBuffer
                              + List.length (flat_map toBuffer rest))
                             (Z.to_nat (maxSize - bytesWritten st))); [lia|].
      split; [|reflexivity].
      rewrite <- app_assoc, !sinkBytes_app. simpl. rewrite !app_nil_r.
      rewrite Buffer_slice0_fits by lia.
      rewrite firstn_app.
      replace (Z.to_nat (maxSize - bytesWritten st) - List.length chunkBuffer) with 0 by lia.
      simpl. now rewrite app_nil_r.
    + (* the chunk fits *)
      erewrite bind_Ok by reflexivity.
      match goal with |- context [onDataAll maxSize ?s rest ?v] =>
        destruct (IH s v eq_refl) as (st' & w' & E & Hs & Ht); [simpl; lia|]
      end.
      exists st', w'. split; [exact E|]. simpl in Hs, Ht.
      rewrite Hs, Ht, sinkBytes_app, length_app. simpl. rewrite app_nil_r, <- app_assoc.
      replace (Z.to_nat (maxSize - (bytesWritten st + Z.of_nat (List.length chunkBuffer))))
        with (Z.to_nat (maxSize - bytesWritten st) - List.length chunkBuffer) by lia.
      destruct (Nat.leb_spec (List.length (flat_map toBuffer rest))
                             (Z.to_nat (maxSize - bytesWritten st)
                              - List.length chunkBuffer));
        destruct (Nat.leb_spec (List.length chunkBuffer
                                + List.length (flat_map toBuffer rest))
                               (Z.to_nat (maxSize - bytesWritten st))); try lia.
      * split; reflexivity.
      * split; [|reflexivity]. f_equal.
        rewrite firstn_app.
        rewrite (firstn_all2 (n := Z.to_nat (maxSize - bytesWritten st))) by lia.
        now rewrite <- app_assoc.
Qed.

Lemma settle_end (st : Copy) (w : World) : settle st StreamEnd w = (Ok tt, w).
Proof. unfold settle. now destruct (truncated st). Qed.

Lemma to_N_byteOf (n : N) : (n < 256)%N -> Byte.to_N (Utf8.byteOf n) = n.
Proof.
  intros H. unfold Utf8.byteOf. rewrite N.mod_small by assumption.
  destruct (Byte.of_N n) as [b|] eqn:E.
  - now apply Byte.to_of_N.
  - apply Byte.of_N_None_iff in E. lia.
Qed.

(** Linear arithmetic with division and remainder by constants. *)
Ltac ediv_lia := zify; Z.to_euclidean_division_equations; lia.

Ltac split_tests :=
  repeat match goal with
  | |- context [N.leb ?a ?b] => destruct (N.leb_spec a b); try ediv_lia
  | |- context [N.ltb ?a ?b] => destruct (N.ltb_spec a b); try ediv_lia
  | |- context [N.eqb ?a ?b] => destruct (N.eqb_spec a b); try ediv_lia
  end.

Section Utf8RoundTrip.

Local Open Scope N_scope.

Lemma lead1 (x : N) : x <= 0x7F -> Utf8.lead x = ([x], Utf8.idle).
Proof. intros H. unfold Utf8.lead. now split_tests. Qed.

Lemma lead2 (x : N) :
  0xC2 <= x <= 0xDF -> Utf8.lead x = ([], Utf8.mkDecoder (x mod 32) 0 1 0x80 0xBF).
Proof.
  intros H. unfold Utf8.lead. change 0x1F with (N.ones 5). rewrite N.land_ones.
  split_tests. reflexivity.
Qed.

Lemma lead3 (x : N) :
  0xE0 <= x <= 0xEF ->
  Utf8.lead x = ([], Utf8.mkDecoder (x mod 16) 0 2
                                    (if x =? 0xE0 then 0xA0 else 0x80)
                                    (if x =? 0xED then 0x9F else 0xBF)).
Proof.
  intros H. unfold Utf8.lead. change 0xF with (N.ones 4). rewrite N.land_ones.
  destruct (N.leb_spec x 0x7F); [lia|].
  destruct (N.leb_spec 0xC2 x); [|lia].
  destruct (N.leb_spec x 0xDF); [lia|].
  destruct (N.leb_spec 0xE0 x); [|lia].
  destruct (N.leb_spec x 0xEF); [|lia].
  reflexivity.
Qed.

Lemma lead4 (x : N) :
  0xF0 <= x <= 0xF4 ->
  Utf8.lead x = ([], Utf8.mkDecoder (x mod 8) 0 3
                                    (if x =? 0xF0 then 0x90 else 0x80)
                                    (if x =? 0xF4 then 0x8F else 0xBF)).
Proof.
  intros H. unfold Utf8.lead. change 0x7 with (N.ones 3). rewrite N.land_ones.
  destruct (N.leb_spec x 0x7F); [lia|].
  destruct (N.leb_spec 0xC2 x); [|lia].
  destruct (N.leb_spec x 0xDF); [lia|].
  destruct (N.leb_spec 0xE0 x); [|lia].
  destruct (N.leb_spec x 0xEF); [lia|].
  destruct (N.leb_spec 0xF0 x); [|lia].
  destruct (N.leb_spec x 0xF4); [|lia].
  reflexivity.
Qed.

Lemma step_lead (n : N) : n < 256 -> Utf8.step Utf8.idle (Utf8.byteOf n) = Utf8.lead n.
Proof. intros H. unfold Utf8.step. rewrite to_N_byteOf by assumption. reflexivity. Qed.

Lemma step_more (cp seen needed lo hi n : N) :
  n < 256 -> needed <> 0 -> lo <= n <= hi -> seen + 1 <> needed ->
  Utf8.step (Utf8.mkDecoder cp seen needed lo hi) (Utf8.byteOf n)
  = ([], Utf8.mkDecoder (cp * 64 + n mod 64) (seen + 1) needed 0x80 0xBF).
Proof.
  intros H Hn Hb Hs. unfold Utf8.step. rewrite to_N_byteOf by assumption.
  cbn [Utf8.bytesNeeded Utf8.lowerBoundary Utf8.upperBoundary Utf8.codePoint Utf8.bytesSeen].
  change 0x3F with (N.ones 6). rewrite N.land_ones.
  destruct (N.eqb_spec needed 0); [contradiction|].
  destruct (N.leb_spec lo n); [|lia].
  destruct (N.leb_spec n hi); [|lia].
  destruct (N.eqb_spec (seen + 1) needed); [contradiction|].
  reflexivity.
Qed.

Lemma step_last (cp seen needed lo hi n : N) :
  n < 256 -> needed <> 0 -> lo <= n <= hi -> seen + 1 = needed ->
  Utf8.step (Utf8.mkDecoder cp seen needed lo hi) (Utf8.byteOf n)
  = ([cp * 64 + n mod 64], Utf8.idle).
Proof.
  intros H Hn Hb Hs. unfold Utf8.step. rewrite to_N_byteOf by assumption.
  cbn [Utf8.bytesNeeded Utf8.lowerBoundary Utf8.upperBoundary Utf8.codePoint Utf8.bytesSeen].
  change 0x3F with (N.ones 6). rewrite N.land_ones.
  destruct (N.eqb_spec needed 0); [contradiction|].
  destruct (N.leb_spec lo n); [|lia].
  destruct (N.leb_spec n hi); [|lia].
  destruct (N.eqb_spec (seen + 1) needed); [|contradiction].
  reflexivity.
Qed.

(** The decoder reads back what the encoder wrote for a scalar value. *)
Lemma write_encode1 (c : N) :
  isScalar c -> Utf8.write Utf8.idle (Utf8.encode1 c) = ([c], Utf8.idle).
Proof.
  intros H. unfold isScalar in H. unfold Utf8.encode1.
  destruct (N.ltb_spec c 0x80).
  { cbn [Utf8.write]. rewrite step_lead, lead1 by ediv_lia. reflexivity. }
  destruct (N.ltb_spec c 0x800).
  { cbn [Utf8.write]. rewrite step_lead, lead2 by ediv_lia.
    rewrite step_last by ediv_lia. cbn [app]. do 2 f_equal. ediv_lia. }
  assert (Three : c < 0x10000 ->
            Utf8.write Utf8.idle
              [Utf8.byteOf (0xE0 + c / 4096); Utf8.byteOf (0x80 + (c / 64) mod 64);
               Utf8.byteOf (0x80 + c mod 64)] = ([c], Utf8.idle)).
  { intros L. cbn [Utf8.write]. rewrite step_lead, lead3 by ediv_lia.
    rewrite step_more; [|ediv_lia|ediv_lia|split_tests|ediv_lia].
    rewrite step_last by ediv_lia. cbn [app]. do 2 f_equal. ediv_lia. }
  destruct (N.leb_spec 0xD800 c); destruct (N.leb_spec c 0xDFFF); try lia; cbn [andb].
  - destruct (N.ltb_spec c 0x10000); [now apply Three|].
    cbn [Utf8.write]. rewrite step_lead, lead4 by ediv_lia.
    rewrite step_more; [|ediv_lia|ediv_lia|split_tests|ediv_lia].
    rewrite step_more by ediv_lia.
    rewrite step_last by ediv_lia. cbn [app]. do 2 f_equal. ediv_lia.
  - destruct (N.ltb_spec c 0x10000); [now apply Three | lia].
Qed.

End Utf8RoundTrip.

Lemma write_app (a b : list byte) :
  forall d,
    Utf8.write d (a ++ b)
    = (fst (Utf8.write d a) ++ fst (Utf8.write (snd (Utf8.write d a)) b),
       snd (Utf8.write (snd (Utf8.write d a)) b)).
Proof.
  induction a as [|x a IH]; intros d; simpl.
  - now destruct (Utf8.write d b).
  - destruct (Utf8.step d x) as [o d1]. rewrite IH.
    destruct (Utf8.write d1 a) as [o1 d2]. simpl.
    destruct (Utf8.write d2 b) as [o2 d3]. simpl. now rewrite app_assoc.
Qed.

Lemma encode_app (s t : list N) : Utf8.encode (s ++ t) = Utf8.encode s ++ Utf8.encode t.
Proof. unfold Utf8.encode. apply flat_map_app. Qed.

Lemma write_encode (s : list N) :
  Forall isScalar s -> Utf8.write Utf8.idle (Utf8.encode s) = (s, Utf8.idle).
Proof.
  induction 1 as [|c s Hc _ IH]; [reflexivity|].
  change (Utf8.encode (c :: s)) with (Utf8.encode1 c ++ Utf8.encode s).
  rewrite write_app, (write_encode1 c Hc). simpl. now rewrite IH.
Qed.

Lemma toBuffer_deliver (s : list N) : flat_map toBuffer (deliver s) = Utf8.encode s.
Proof. destruct s; simpl; [reflexivity | now rewrite app_nil_r]. Qed.

(** Cutting the source into raw chunks does not change what is
    delivered in total. *)
Lemma decodeChunks_concat (raw : list (list byte)) :
  forall d,
    flat_map toBuffer (decodeChunks d raw StreamEnd)
    = Utf8.encode (fst (Utf8.write d (List.concat raw))
                     ++ Utf8.finish (snd (Utf8.write d (List.concat raw)))).
Proof.
  induction raw as [|r raw IH]; intros d; simpl.
  - apply toBuffer_deliver.
  - rewrite write_app. destruct (Utf8.write d r) as [o d1]. simpl.
    rewrite flat_map_app, toBuffer_deliver, IH, <- app_assoc.
    now rewrite <- encode_app.
Qed.

(** Well-formed UTF-8 survives the stream, however it is cut into raw
    chunks. *)
Lemma utf8Text_valid (raw : list (list byte)) :
  validUtf8 (List.concat raw) -> utf8Text raw.
Proof.
  intros (s & Hs & E). unfold utf8Text.
  rewrite decodeChunks_concat, E, (write_encode s Hs). simpl.
  now rewrite app_nil_r.
Qed.

(** C2 (as amended).  For a source that is well-formed UTF-8 and is read
    to its end, and a ceiling [C] that is not negative: the copy returns; when
    [C] is below the size of the source the bytes written are the first
    [C] bytes of the source followed by the truncation marker line, and
    otherwise they are the bytes of the source and nothing else; and once
    the copy has truncated, the data handler writes nothing more. *)
Theorem streamFileWithLimit_bounded_copy
        (fs : string -> FileState) (absolutePath : string) (C : Z) :
  (0 <= C)%Z ->
  streamLast (fs absolutePath) = StreamEnd ->
  validUtf8 (List.concat (streamChunks (fs absolutePath))) ->
  fst (streamFileWithLimit fs absolutePath C emptyWorld) = Ok tt
  /\ boundedCopySpec fs absolutePath C
  /\ (forall st chunk w, truncated st = true -> onData C st chunk w = (Ok st, w)).
Proof.
  intros HC HE HV. pose proof (utf8Text_valid _ HV) as HU.
  assert (Run : exists st' w',
             streamFileWithLimit fs absolutePath C emptyWorld = (Ok tt, w')
             /\ sinkBytes (sink w')
                = (let total := List.concat (streamChunks (fs absolutePath)) in
                   if (List.length total <=? Z.to_nat C)%nat then total
                   else firstn (Z.to_nat C) total ++ Utf8.encodeString TRUNCATED)
             /\ truncated st' = negb (List.length (List.concat (streamChunks (fs absolutePath)))
                                      <=? Z.to_nat C)%nat).
  { unfold streamFileWithLimit, streamFrom.
    erewrite bind_Ok by reflexivity. rewrite HE.
    unfold createReadStream. simpl dataEvents. simpl lastEvent.
    match goal with |- context [bind (onDataAll C ?s ?chunks) _ ?v] =>
      destruct (onDataAll_copy C chunks s v eq_refl) as (st' & w' & E & Hs & Ht);
        [simpl; lia|]
    end.
    exists st', w'. rewrite (bind_Ok _ _ _ _ _ E), settle_end.
    unfold utf8Text in HU. rewrite HU in Hs, Ht. simpl in Hs, Ht.
    rewrite Z.sub_0_r in Hs, Ht. auto. }
  destruct Run as (st' & w' & E & Hs & Ht).
  split; [now rewrite E|]. split; [|intros; now apply onData_truncated].
  unfold boundedCopySpec. rewrite E. simpl snd. rewrite Hs. cbv zeta.
  split; intros H.
  - destruct (Nat.leb_spec (List.length (List.concat (streamChunks (fs absolutePath))))
                           (Z.to_nat C)); [lia | reflexivity].
  - destruct (Nat.leb_spec (List.length (List.concat (streamChunks (fs absolutePath))))
                           (Z.to_nat C)); [reflexivity | lia].
Qed.

(** The source [0123456789] under the ceiling 4. *)
Lemma streamFileWithLimit_bounded_copy_witness :
  (0 <= 4)%Z
  /\ streamLast (fsDigits "r/digits.txt") = StreamEnd
  /\ validUtf8 (List.concat (streamChunks (fsDigits "r/digits.txt")))
  /\ boundedCopySpec fsDigits "r/digits.txt" 4.
Proof.
  assert (H0 : (0 <= 4)%Z) by lia.
  assert (H1 : streamLast (fsDigits "r/digits.txt") = StreamEnd) by reflexivity.
  assert (H2 : validUtf8 (List.concat (streamChunks (fsDigits "r/digits.txt")))).
  { exists [48; 49; 50; 51; 52; 53; 54; 55; 56; 57]%N.
    split; [|reflexivity]. repeat constructor; unfold isScalar; lia. }
  split; [exact H0|]. split; [exact H1|]. split; [exact H2|].
  exact (proj1 (proj2 (streamFileWithLimit_bounded_copy
                         fsDigits "r/digits.txt" 4 H0 H1 H2))).
Defined.

(** C2, as the specification states it, fails on a source that is not
    UTF-8: the one byte 0xFF under the ceiling 1 fits ([S <= C]), yet
    what is written is the first byte of the encoding of U+FFFD and the
    truncation marker, not the source. *)
Lemma bounded_copy_refuted_on_latin1 :
  sinkBytes (sink (snd (streamFileWithLimit fsLatin1 "r/latin1.txt" 1 emptyWorld)))
  = xef :: Utf8.encodeString TRUNCATED
  /\ ~ boundedCopySpec fsLatin1 "r/latin1.txt" 1.
Proof.
  split; [reflexivity|].
  intros [_ H]. specialize (H ltac:(simpl; lia)). vm_compute in H. discriminate H.
Qed.

(** ** File-Set Resolver *)

Lemma Set_has_In (x : string) (s : list string) : JS.Set_has x s = true <-> In x s.
Proof.
  unfold JS.Set_has. rewrite existsb_exists. split.
  - intros (y & Hy & E). apply String.eqb_eq in E. now subst y.
  - intros H. exists x. split; [assumption | apply String.eqb_refl].
Qed.

Lemma In_Set_add (s : list string) (x y : string) :
  In y (JS.Set_add s x) <-> In y s \/ y = x.
Proof.
  unfold JS.Set_add. destruct (JS.Set_has x s) eqn:E.
  - apply Set_has_In in E. split; [now left | intros [H | ->]; assumption].
  - rewrite in_app_iff. simpl. intuition.
Qed.

Lemma In_fold_Set_add (l : list string) :
  forall s y, In y (fold_left JS.Set_add l s) <-> In y s \/ In y l.
Proof.
  induction l as [|x l IH]; intros s y; simpl.
  - intuition.
  - rewrite IH, In_Set_add. intuition.
Qed.

Lemma In_Set_delete (x y : string) (s : list string) :
  In y (JS.Set_delete x s) <-> In y s /\ y <> x.
Proof.
  unfold JS.Set_delete. rewrite filter_In, negb_true_iff, String.eqb_neq.
  intuition.
Qed.

Lemma NoDup_Set_add (s : list string) (x : string) : NoDup s -> NoDup (JS.Set_add s x).
Proof.
  intros H. unfold JS.Set_add. destruct (JS.Set_has x s) eqn:E; [assumption|].
  apply NoDup_app; [assumption | repeat constructor; intros [] | ].
  intros y Hy [<- | []]. apply Set_has_In in Hy. congruence.
Qed.

Lemma NoDup_fold_Set_add (l : list string) :
  forall s, NoDup s -> NoDup (fold_left JS.Set_add l s).
Proof.
  induction l as [|x l IH]; intros s H; simpl; [assumption|].
  apply IH. now apply NoDup_Set_add.
Qed.

(** X4.  The resolved set lists every path once, also when a re-include
    pattern matches a path that the first enumeration already gave, or
    when several re-include patterns match the same path. *)
Lemma main_resolve_NoDup (e : Glob.Engine) (tree : list string) (names : Names)
      (ignorePatterns files : list string) :
  main_resolve e tree names ignorePatterns = Ok files -> NoDup files.
Proof.
  unfold main_resolve.
  destruct (Glob.glob e tree "**/*" (ignoreGlobs names ignorePatterns)); [|discriminate].
  intros E. injection E as <-.
  assert (H : forall s, NoDup s -> forall x, NoDup (JS.Set_delete x s))
    by (intros; now apply NoDup_filter).
  destruct (JS.truthy (preambleOrEmpty names));
    repeat apply H; apply NoDup_fold_Set_add, NoDup_fold_Set_add; constructor.
Qed.

Lemma compileAll_none_matches (compile : string -> option (string -> bool))
      (gs : list string) (f : string) :
  (forall g, In g gs -> exists ig, compile g = Some ig /\ ig f = false) ->
  exists igs, Glob.compileAll compile gs = Some igs /\ existsb (fun ig => ig f) igs = false.
Proof.
  induction gs as [|g gs IH]; intros H; simpl.
  - now exists [].
  - destruct (H g (or_introl eq_refl)) as (ig & -> & Hf).
    destruct IH as (igs & -> & Hex); [intros; apply H; now right|].
    exists (ig :: igs). simpl. now rewrite Hf, Hex.
Qed.

Lemma In_reIncludedFrom (e : Glob.Engine) (tree : list string) (pats : list string) :
  forall acc f,
    In f acc
    \/ (exists pat m, In pat pats /\ Glob.matcher e pat = Some m /\ m f = true /\ In f tree) ->
    In f (reIncludedFrom e tree acc pats).
Proof.
  induction pats as [|p pats IH]; intros acc f H; simpl.
  - destruct H as [H | (pat & m & [] & _)]. assumption.
  - unfold Glob.glob. simpl.
    destruct H as [H | (pat & m & [<- | Hin] & Hm & Hf & Ht)].
    + destruct (Glob.matcher e p); apply IH; left; [apply in_or_app|]; auto.
    + rewrite Hm. apply IH. left. apply in_or_app. right.
      apply filter_In. split; [assumption|]. now rewrite Hf.
    + destruct (Glob.matcher e p); apply IH; right; exists pat, m; auto.
Qed.

(** What [main] does after the two enumerations. *)
Lemma main_resolve_merged (e : Glob.Engine) (tree : list string) (names : Names)
      (ignorePatterns allFiles : list string) (f : string) :
  Glob.glob e tree "**/*" (ignoreGlobs names ignorePatterns) = Some allFiles ->
  In f allFiles
  \/ In f (reIncludedFrom e tree [] (negativePatterns ignorePatterns)) ->
  f <> ignoreFileName names ->
  f <> outputFileName names ->
  preambleFile names <> Some f ->
  exists files, main_resolve e tree names ignorePatterns = Ok files /\ In f files.
Proof.
  intros E H N1 N2 N3. unfold main_resolve. rewrite E.
  eexists. split; [reflexivity|].
  assert (M : In f (JS.Set_delete (outputFileName names)
                      (JS.Set_delete (ignoreFileName names)
                         (fold_left JS.Set_add
                            (reIncludedFrom e tree [] (negativePatterns ignorePatterns))
                            (JS.Set_new allFiles))))).
  { rewrite !In_Set_delete, In_fold_Set_add. unfold JS.Set_new.
    rewrite In_fold_Set_add. simpl. intuition. }
  unfold preambleOrEmpty. destruct (preambleFile names) as [p|]; [|exact M].
  destruct (JS.truthy p); [|exact M].
  apply In_Set_delete. split; [exact M|].
  intros ->. now apply N3.
Qed.

(** C3 (as amended).  A file of the tree that the enumeration of [**/*]
    reaches, that none of the globs handed to [ignore] matches (the
    exclude patterns of the user, [.git/**], [node_modules/**], the
    ignore-file name, the output-file name and the preamble path), and
    whose path is none of the three reserved names, is in the resolved
    set. *)
Theorem main_resolve_keeps_unignored
        (e : Glob.Engine) (tree : list string) (names : Names)
        (ignorePatterns : list string) (everything : string -> bool) (f : string) :
  Glob.matcher e "**/*" = Some everything ->
  everything f = true ->
  In f tree ->
  (forall g, In g (ignoreGlobs names ignorePatterns) ->
             exists ig, Glob.ignorer e g = Some ig /\ ig f = false) ->
  f <> ignoreFileName names ->
  f <> outputFileName names ->
  preambleFile names <> Some f ->
  exists files, main_resolve e tree names ignorePatterns = Ok files /\ In f files.
Proof.
  intros Hm Hf Ht Hi N1 N2 N3.
  destruct (compileAll_none_matches (Glob.ignorer e) _ f Hi) as (igs & Hc & Hex).
  eapply main_resolve_merged; try eassumption.
  - unfold Glob.glob. rewrite Hm, Hc. reflexivity.
  - left. apply filter_In. split; [assumption|]. now rewrite Hf, Hex.
Qed.

Lemma main_resolve_keeps_unignored_witness :
  Glob.matcher Glob.simple "**/*" = Some (Glob.simpleMatch "**/*")
  /\ Glob.simpleMatch "**/*" "src/a.txt" = true
  /\ In "src/a.txt" ["src/a.txt"; "output.txt"; ".git/config"]
  /\ exists files,
       main_resolve Glob.simple ["src/a.txt"; "output.txt"; ".git/config"]
                    defaultNames ["*.log"] = Ok files
       /\ In "src/a.txt" files.
Proof.
  split; [reflexivity|]. split; [reflexivity|]. split; [now left|].
  apply (main_resolve_keeps_unignored
           Glob.simple ["src/a.txt"; "output.txt"; ".git/config"] defaultNames ["*.log"]
           (Glob.simpleMatch "**/*") "src/a.txt");
    try reflexivity; try discriminate.
  - now left.
  - intros g Hg. exists (Glob.simpleMatch g). split; [reflexivity|].
    simpl in Hg.
    repeat (destruct Hg as [<- | Hg]; [reflexivity|]). destruct Hg.
Defined.

(** C3, as the specification states it, fails: with no exclude pattern
    at all, the output file of an earlier run is in the tree, no exclude
    pattern matches it, and it is not resolved. *)
Lemma keepsUnexcluded_refuted_on_output_file :
  main_resolve Glob.simple ["a.txt"; "output.txt"] defaultNames [] = Ok ["a.txt"]
  /\ ~ keepsUnexcluded Glob.simple ["a.txt"; "output.txt"] defaultNames [].
Proof.
  split; [reflexivity|].
  intros H.
  destruct (H "output.txt" (or_intror (or_introl eq_refl))) as (files & E & Hin).
  - intros g [].
  - vm_compute in E. injection E as <-.
    destruct Hin as [Hin | []]. discriminate Hin.
Qed.

(** C5 (as amended).  Provided the first enumeration does not reject, a
    file of the tree that a re-include pattern matches is in the resolved
    set, whether or not an exclude pattern matches it too, unless its
    path is the ignore-file name, the output-file name or the preamble
    path, which [main] removes at the end. *)
Theorem main_resolve_reinclude_wins
        (e : Glob.Engine) (tree : list string) (names : Names)
        (ignorePatterns : list string) (f pat : string) (m : string -> bool) :
  (exists allFiles,
      Glob.glob e tree "**/*" (ignoreGlobs names ignorePatterns) = Some allFiles) ->
  In f tree ->
  In pat (negativePatterns ignorePatterns) ->
  Glob.matcher e pat = Some m ->
  m f = true ->
  f <> ignoreFileName names ->
  f <> outputFileName names ->
  preambleFile names <> Some f ->
  exists files, main_resolve e tree names ignorePatterns = Ok files /\ In f files.
Proof.
  intros [allFiles E] Ht Hp Hm Hf N1 N2 N3.
  eapply main_resolve_merged; try eassumption.
  right. apply In_reIncludedFrom. right. exists pat, m. auto.
Qed.

(** The scenario of the repository's tests, with a broad exclude:
    [*.ts] excludes [bar.ts] and [!bar.ts] brings it back. *)
Lemma main_resolve_reinclude_wins_witness :
  (exists allFiles,
      Glob.glob Glob.simple ["foo.ts"; "bar.ts"; "baz.js"] "**/*"
                (ignoreGlobs defaultNames ["*.ts"; "!bar.ts"]) = Some allFiles)
  /\ In "bar.ts" ["foo.ts"; "bar.ts"; "baz.js"]
  /\ In "bar.ts" (negativePatterns ["*.ts"; "!bar.ts"])
  /\ Glob.simpleMatch "*.ts" "bar.ts" = true
  /\ Glob.simpleMatch "bar.ts" "bar.ts" = true
  /\ exists files,
       main_resolve Glob.simple ["foo.ts"; "bar.ts"; "baz.js"] defaultNames
                    ["*.ts"; "!bar.ts"] = Ok files
       /\ In "bar.ts" files.
Proof.
  assert (H : exists allFiles,
             Glob.glob Glob.simple ["foo.ts"; "bar.ts"; "baz.js"] "**/*"
                       (ignoreGlobs defaultNames ["*.ts"; "!bar.ts"]) = Some allFiles)
    by (eexists; reflexivity).
  split; [exact H|]. split; [right; now left|]. split; [now left|].
  split; [reflexivity|]. split; [reflexivity|].
  apply (main_resolve_reinclude_wins
           Glob.simple ["foo.ts"; "bar.ts"; "baz.js"] defaultNames ["*.ts"; "!bar.ts"]
           "bar.ts" "bar.ts" (Glob.simpleMatch "bar.ts") H);
    try reflexivity; try discriminate.
  - right; now left.
  - now left.
Defined.

(** C5, as the specification states it, fails: [*.txt] excludes the
    output file of an earlier run, [!output.txt] matches it, and it is
    still not resolved. *)
Lemma reincludeWins_refuted_on_output_file :
  main_resolve Glob.simple ["a.md"; "output.txt"] defaultNames ["*.txt"; "!output.txt"]
  = Ok ["a.md"]
  /\ ~ reincludeWins Glob.simple ["a.md"; "output.txt"] defaultNames
                     ["*.txt"; "!output.txt"].
Proof.
  split; [reflexivity|].
  intros H.
  destruct (H "output.txt" (or_intror (or_introl eq_refl))) as (files & E & Hin).
  - exists "*.txt", (Glob.simpleMatch "*.txt"). repeat split. now left.
  - exists "output.txt", (Glob.simpleMatch "output.txt"). repeat split. now left.
  - vm_compute in E. injection E as <-.
    destruct Hin as [Hin | []]. discriminate Hin.
Qed.

(** C7 at two inputs: an upper-case [.BIN] name, for which the file
    system is not touched, and a two-byte file whose second byte is 0. *)
Lemma isBinaryFile_classifies_witness :
  JS.toLowerCase (Path.extname "r/image.BIN") = ".bin"
  /\ isBinaryFile fsOneFile "r/image.BIN" emptyWorld = (Ok true, emptyWorld)
  /\ JS.toLowerCase (Path.extname "r/z.dat") <> ".bin"
  /\ exists answer,
       fst (isBinaryFile (fsOf [("r/z.dat", regularFile [x61; x00] "")]) "r/z.dat"
                         emptyWorld) = Ok answer
       /\ (answer = true <-> In x00 (firstn 512 [x61; x00])).
Proof.
  assert (H1 : JS.toLowerCase (Path.extname "r/image.BIN") = ".bin") by reflexivity.
  assert (H2 : JS.toLowerCase (Path.extname "r/z.dat") <> ".bin") by discriminate.
  split; [exact H1|].
  split; [exact (proj1 (isBinaryFile_classifies fsOneFile "r/image.BIN" emptyWorld) H1)|].
  split; [exact H2|].
  exact (proj1 (proj2 (isBinaryFile_classifies
                         (fsOf [("r/z.dat", regularFile [x61; x00] "")]) "r/z.dat"
                         emptyWorld))
               H2 [x61; x00] eq_refl eq_refl eq_refl).
Defined.

(** C7, as the specification states it, fails when the descriptor
    cannot be closed: the file is opened and read, a zero byte is among
    the bytes read, and the answer is [false], because [close] is awaited
    inside the [try], before the bytes are looked at. *)
Lemma classifier_refuted_on_failed_close :
  isBinaryFile fsCloseFails "r/z.dat" emptyWorld
  = (Ok false,
     mkWorld [] false [] 0 0 [CallOpen "r/z.dat"; CallRead "r/z.dat"; CallClose "r/z.dat"])
  /\ ~ classifierSpec fsCloseFails "r/z.dat".
Proof.
  split; [reflexivity|].
  intros H. specialize (H ltac:(discriminate) [x61; x00] eq_refl eq_refl).
  destruct H as [_ H]. specialize (H ltac:(right; now left)). discriminate H.
Qed.

(** ** The repository's tests, replayed on the model *)

Example test_buildTableOfContents :
  buildTableOfContents ["foo.txt"; "bar/baz.js"; "qux/quux.txt"]
  = ("Table of Contents:" ++ JS.LF ++ "1. foo.txt" ++ JS.LF ++ "2. bar/baz.js" ++ JS.LF
       ++ "3. qux/quux.txt" ++ JS.LF ++ JS.LF)%string.
Proof. reflexivity. Qed.

Example test_getIgnoreList :
  getIgnoreList false
    ("# This is a comment" ++ JS.LF ++ "foo.js" ++ JS.LF ++ JS.LF ++ "bar/*.txt" ++ JS.LF
       ++ "# Another comment" ++ JS.LF ++ JS.LF ++ "baz/**/qux.txt")%string
  = ["foo.js"; "bar/*.txt"; "baz/**/qux.txt"].
Proof. reflexivity. Qed.

Example test_getIgnoreList_win32 :
  getIgnoreList true
    ("# comment" ++ JS.LF ++ "foo/bar.txt" ++ JS.LF ++ JS.LF ++ "baz/qux/*.js")%string
  = ["foo\bar.txt"; "baz\qux\*.js"].
Proof. reflexivity. Qed.

Example test_isBinaryFile :
  map (fun p => fst (isBinaryFile fsTests p emptyWorld))
      ["r/text.txt"; "r/image.bin"; "r/another.BIN"; "r/nonexistent.txt"; "r/weird.txt"]
  = [Ok false; Ok true; Ok true; Ok false; Ok true].
Proof. vm_compute. reflexivity. Qed.

Example test_streamFileWithLimit_truncates :
  sinkBytes (sink (snd (streamFileWithLimit fsTests "r/long.txt" 800 emptyWorld)))
  = repeat x41 500 ++ repeat x42 300 ++ bytesOf TRUNCATED.
Proof. vm_compute. reflexivity. Qed.

Example test_writeFilesWithIndex_sections :
  sink (snd (writeFilesWithIndex fsTests joinPlain "r" 1024 false
                                 ["text.txt"; "image.bin"] emptyWorld))
  = [WStr ("----[1]" ++ JS.LF)%string; WStr ("text.txt" ++ JS.LF)%string;
     WBuf (bytesOf "Test content"); WStr JS.LF;
     WStr ("----[2]" ++ JS.LF)%string; WStr ("image.bin" ++ JS.LF)%string;
     WStr ("[BINARY FILE] Size: 6 bytes, Modified: 2025-01-02T00:00:00.000Z" ++ JS.LF)%string].
Proof. vm_compute. reflexivity. Qed.

Example test_writeFilesWithIndex_inaccessible :
  writeFilesWithIndex fsTests joinPlain "r" 1024 false ["nonexistent.txt"] emptyWorld
  = (Ok tt,
     mkWorld [] false
             [("Warning: unable to access or read " ++ DQUOTE ++ "nonexistent.txt" ++ DQUOTE
                 ++ ". Skipping.")%string]
             0 0 [CallStat "r/nonexistent.txt"]).
Proof. vm_compute. reflexivity. Qed.

Example test_negative_patterns :
  main_resolve Glob.simple ["foo.ts"; "bar.ts"; "baz.js"; ".repo2promptignore"]
               defaultNames
               (getIgnoreList false ("foo.ts" ++ JS.LF ++ "!bar.ts")%string)
  = Ok ["bar.ts"; "baz.js"].
Proof. vm_compute. reflexivity. Qed.

(** A file that can be stat'ed but not read is reported as skipped only
    after its separator and path lines went out: the read stream fails
    when the header is already written. *)
Example unreadable_file_leaves_header :
  writeFilesWithIndex fsTests joinPlain "r" 1024 true ["locked.txt"] emptyWorld
  = (Ok tt,
     mkWorld [WStr ("----[1]" ++ JS.LF)%string; WStr ("locked.txt" ++ JS.LF)%string] false
             [("Warning: unable to access or read " ++ DQUOTE ++ "locked.txt" ++ DQUOTE
                 ++ ". Skipping.")%string]
             0 1
             [CallStat "r/locked.txt"; CallOpen "r/locked.txt";
              CallCreateReadStream "r/locked.txt"]).
Proof. vm_compute. reflexivity. Qed.

(** A character cut in two by a chunk boundary is put together again by
    the decoder: the euro sign E2 82 AC arriving as E2 82 | AC 41. *)
Example decoder_joins_split_character :
  createReadStream [[xe2; x82]; [xac; x41]] StreamEnd
  = mkReadStream [ChunkString [0x20AC; 0x41]%N] StreamEnd.
Proof. reflexivity. Qed.

(** A negative ceiling: [slice(0, remaining)] then counts from the end
    of the chunk. *)
Example negative_ceiling_slices_from_the_end :
  sink (snd (streamFrom (mkReadStream [ChunkBuffer (bytesOf "abc")] StreamEnd) (-1) emptyWorld))
  = [WBuf (bytesOf "ab"); WStr TRUNCATED].
Proof. reflexivity. Qed.

(** * Further properties of the code *)

(** ** File-Set Resolver: what the resolved set contains *)

Lemma glob_no_ignore (e : Glob.Engine) (tree : list string) (pat : string) :
  Glob.glob e tree pat []
  = match Glob.matcher e pat with
    | Some m => Some (filter (fun f => m f && true) tree)
    | None => None
    end.
Proof. unfold Glob.glob. simpl. now destruct (Glob.matcher e pat). Qed.

Lemma reIncludedFrom_In (e : Glob.Engine) (tree : list string) (pats : list string) :
  forall acc f,
    In f (reIncludedFrom e tree acc pats) ->
    In f acc
    \/ (exists pat m, In pat pats /\ Glob.matcher e pat = Some m /\ m f = true /\ In f tree).
Proof.
  induction pats as [|p pats IH]; intros acc f H; simpl in H; [now left|].
  rewrite glob_no_ignore in H.
  destruct (Glob.matcher e p) as [m|] eqn:Hm.
  - destruct (IH _ _ H) as [Hin | (pat & m' & Hp & Hm' & Hf & Ht)].
    + apply in_app_or in Hin. destruct Hin as [Hin | Hin]; [now left|].
      apply filter_In in Hin. destruct Hin as [Ht Hf].
      rewrite andb_true_r in Hf.
      right. exists p, m. repeat split; auto. now left.
    + right. exists pat, m'. repeat split; auto. now right.
  - destruct (IH _ _ H) as [Hin | (pat & m' & Hp & Hm' & Hf & Ht)]; [now left|].
    right. exists pat, m'. repeat split; auto. now right.
Qed.

Lemma compileAll_In (compile : string -> option (string -> bool)) (gs : list string) :
  forall igs g ig,
    Glob.compileAll compile gs = Some igs -> In g gs -> compile g = Some ig -> In ig igs.
Proof.
  induction gs as [|g0 gs IH]; intros igs g ig H Hin Hc; [destruct Hin|].
  simpl in H.
  destruct (compile g0) as [m0|] eqn:E0; [|discriminate].
  destruct (Glob.compileAll compile gs) as [ms|] eqn:E; [|discriminate].
  injection H as <-.
  destruct Hin as [<- | Hin].
  - rewrite E0 in Hc. injection Hc as <-. now left.
  - right. eapply IH; eauto.
Qed.

(** The merged set, before and after the three deletions. *)
Lemma main_resolve_In (e : Glob.Engine) (tree : list string) (names : Names)
      (ignorePatterns files : list string) (f : string) :
  main_resolve e tree names ignorePatterns = Ok files ->
  In f files ->
  exists allFiles,
    Glob.glob e tree "**/*" (ignoreGlobs names ignorePatterns) = Some allFiles
    /\ (In f allFiles \/ In f (reIncludedFrom e tree [] (negativePatterns ignorePatterns)))
    /\ isReserved names f = false.
Proof.
  unfold main_resolve.
  destruct (Glob.glob e tree "**/*" (ignoreGlobs names ignorePatterns)) as [allFiles|];
    [|discriminate].
  intros E Hin. injection E as <-. exists allFiles. split; [reflexivity|].
  assert (M : forall s,
             In f (JS.Set_delete (outputFileName names)
                     (JS.Set_delete (ignoreFileName names) s)) ->
             In f s /\ String.eqb (ignoreFileName names) f = false
             /\ String.eqb (outputFileName names) f = false).
  { intros s H. rewrite !In_Set_delete in H. destruct H as [[H N1] N2].
    repeat split; [assumption | |]; apply String.eqb_neq; congruence. }
  unfold isReserved.
  destruct (JS.truthy (preambleOrEmpty names)) eqn:T.
  - apply In_Set_delete in Hin. destruct Hin as [Hin N3].
    apply M in Hin. destruct Hin as (Hin & -> & ->).
    rewrite In_fold_Set_add in Hin. unfold JS.Set_new in Hin.
    rewrite In_fold_Set_add in Hin. simpl in Hin.
    split; [intuition|]. simpl. apply String.eqb_neq. congruence.
  - apply M in Hin. destruct Hin as (Hin & -> & ->).
    rewrite In_fold_Set_add in Hin. unfold JS.Set_new in Hin.
    rewrite In_fold_Set_add in Hin. simpl in Hin.
    split; [intuition | reflexivity].
Qed.

(** Where a resolved path comes from. *)
Lemma main_resolve_origin
        (e : Glob.Engine) (tree : list string) (names : Names)
        (ignorePatterns files : list string) (f : string) :
  main_resolve e tree names ignorePatterns = Ok files ->
  In f files ->
  In f tree
  /\ ((exists everything,
          Glob.matcher e "**/*" = Some everything /\ everything f = true
          /\ forall g ig, In g (ignoreGlobs names ignorePatterns) ->
                          Glob.ignorer e g = Some ig -> ig f = false)
      \/ (exists pat m,
             In pat (negativePatterns ignorePatterns)
             /\ Glob.matcher e pat = Some m /\ m f = true)).
Proof.
  intros E Hin.
  destruct (main_resolve_In _ _ _ _ _ _ E Hin) as (allFiles & G & [H | H] & _).
  - unfold Glob.glob in G.
    destruct (Glob.matcher e "**/*") as [everything|]; [|discriminate].
    destruct (Glob.compileAll (Glob.ignorer e) (ignoreGlobs names ignorePatterns))
      as [igs|] eqn:C; [|discriminate].
    injection G as <-. apply filter_In in H. destruct H as [Ht Hf].
    apply andb_true_iff in Hf. destruct Hf as [Hf Hn].
    split; [assumption|]. left. exists everything. repeat split; auto.
    intros g ig Hg Hc.
    pose proof (compileAll_In _ _ _ _ _ C Hg Hc) as Hi.
    apply negb_true_iff in Hn.
    destruct (ig f) eqn:F; [|reflexivity].
    assert (X : existsb (fun ig0 => ig0 f) igs = true)
      by (apply existsb_exists; now exists ig).
    congruence.
  - apply reIncludedFrom_In in H. destruct H as [[] | (pat & m & Hp & Hm & Hf & Ht)].
    split; [assumption|]. right. now exists pat, m.
Qed.



(** X2.  The ignore-file name, the output-file name and the preamble path
    are never in the resolved set, whatever the patterns say. *)
Theorem main_resolve_never_reserved
        (e : Glob.Engine) (tree : list string) (names : Names)
        (ignorePatterns files : list string) :
  main_resolve e tree names ignorePatterns = Ok files ->
  ~ In (ignoreFileName names) files
  /\ ~ In (outputFileName names) files
  /\ (forall p, preambleFile names = Some p -> JS.truthy p = true -> ~ In p files).
Proof.
  intros E.
  assert (R : forall f, In f files -> isReserved names f = false).
  { intros f Hin. now destruct (main_resolve_In _ _ _ _ _ _ E Hin) as (_ & _ & _ & R). }
  unfold isReserved in R.
  split; [|split].
  - intros Hin. specialize (R _ Hin). now rewrite String.eqb_refl in R.
  - intros Hin. specialize (R _ Hin). rewrite String.eqb_refl, orb_true_r in R.
    discriminate R.
  - intros p Hp T Hin. specialize (R _ Hin). unfold preambleOrEmpty in R.
    rewrite Hp, T, String.eqb_refl, !orb_true_r in R. discriminate R.
Qed.

Lemma main_resolve_never_reserved_witness :
  main_resolve Glob.simple ["a.md"; "output.txt"; ".repo2promptignore"] defaultNames
               ["!output.txt"; "!.repo2promptignore"] = Ok ["a.md"]
  /\ ~ In "output.txt" ["a.md"].
Proof.
  assert (E : main_resolve Glob.simple ["a.md"; "output.txt"; ".repo2promptignore"]
                           defaultNames ["!output.txt"; "!.repo2promptignore"]
              = Ok ["a.md"]) by reflexivity.
  split; [exact E|].
  exact (proj1 (proj2 (main_resolve_never_reserved _ _ _ _ _ E))).
Defined.

(** X3.  A path that one of the ignore globs matches and no re-include
    pattern matches is not resolved. *)
Theorem main_resolve_excludes
        (e : Glob.Engine) (tree : list string) (names : Names)
        (ignorePatterns files : list string) (f g : string) (ig : string -> bool) :
  main_resolve e tree names ignorePatterns = Ok files ->
  In g (ignoreGlobs names ignorePatterns) ->
  Glob.ignorer e g = Some ig ->
  ig f = true ->
  (forall pat m, In pat (negativePatterns ignorePatterns) ->
                 Glob.matcher e pat = Some m -> m f = false) ->
  ~ In f files.
Proof.
  intros E Hg Hc Hf Hneg Hin.
  destruct (main_resolve_origin _ _ _ _ _ _ E Hin)
    as (_ & [(everything & _ & _ & Hn) | (pat & m & Hp & Hm & Hmf)]).
  - specialize (Hn g ig Hg Hc). congruence.
  - specialize (Hneg pat m Hp Hm). congruence.
Qed.

Lemma main_resolve_excludes_witness :
  main_resolve Glob.simple ["foo.ts"; "bar.ts"; "baz.js"] defaultNames ["*.ts"; "!bar.ts"]
  = Ok ["baz.js"; "bar.ts"]
  /\ In "*.ts" (ignoreGlobs defaultNames ["*.ts"; "!bar.ts"])
  /\ Glob.simpleMatch "*.ts" "foo.ts" = true
  /\ ~ In "foo.ts" ["baz.js"; "bar.ts"].
Proof.
  assert (E : main_resolve Glob.simple ["foo.ts"; "bar.ts"; "baz.js"] defaultNames
                           ["*.ts"; "!bar.ts"] = Ok ["baz.js"; "bar.ts"]) by reflexivity.
  assert (G : In "*.ts" (ignoreGlobs defaultNames ["*.ts"; "!bar.ts"])) by now left.
  split; [exact E|]. split; [exact G|]. split; [reflexivity|].
  apply (main_resolve_excludes Glob.simple _ _ _ _ "foo.ts" "*.ts"
                               (Glob.simpleMatch "*.ts") E G eq_refl eq_refl).
  intros pat m [<- | []] Hm. injection Hm as <-. reflexivity.
Defined.

Lemma main_resolve_NoDup_witness :
  main_resolve Glob.simple ["a.md"; "b.md"] defaultNames ["!*.md"; "!a.md"]
  = Ok ["a.md"; "b.md"]
  /\ NoDup ["a.md"; "b.md"].
Proof.
  assert (E : main_resolve Glob.simple ["a.md"; "b.md"] defaultNames ["!*.md"; "!a.md"]
              = Ok ["a.md"; "b.md"]) by reflexivity.
  split; [exact E | exact (main_resolve_NoDup _ _ _ _ _ E)].
Defined.

Lemma positivePatterns_app (a b : list string) :
  positivePatterns (a ++ b) = positivePatterns a ++ positivePatterns b.
Proof. unfold positivePatterns. apply filter_app. Qed.

Lemma negativePatterns_app (a b : list string) :
  negativePatterns (a ++ b) = negativePatterns a ++ negativePatterns b.
Proof. unfold negativePatterns. now rewrite filter_app, map_app. Qed.

Lemma reIncludedFrom_skips (e : Glob.Engine) (tree : list string) (bad : string)
      (before after : list string) :
  Glob.matcher e bad = None ->
  forall acc,
    reIncludedFrom e tree acc (before ++ bad :: after)
    = reIncludedFrom e tree acc (before ++ after).
Proof.
  intros Hb. induction before as [|p before IH]; intros acc; simpl.
  - now rewrite glob_no_ignore, Hb.
  - destruct (Glob.glob e tree p []); apply IH.
Qed.

(** X5.  A re-include line whose pattern [glob] rejects is skipped and
    resolution goes on: the result is the one the same ignore file gives
    without that line. *)
Theorem main_resolve_skips_rejected_pattern
        (e : Glob.Engine) (tree : list string) (names : Names)
        (before after : list string) (bad : string) :
  Glob.matcher e bad = None ->
  main_resolve e tree names (before ++ String "!" bad :: after)
  = main_resolve e tree names (before ++ after).
Proof.
  intros Hb. unfold main_resolve, ignoreGlobs.
  rewrite !positivePatterns_app, !negativePatterns_app.
  change (positivePatterns (String "!" bad :: after)) with (positivePatterns after).
  change (negativePatterns (String "!" bad :: after)) with (bad :: negativePatterns after).
  now rewrite (reIncludedFrom_skips e tree bad _ _ Hb).
Qed.

Lemma main_resolve_skips_rejected_pattern_witness :
  Glob.matcher (boundedEngine 16) "a-very-long-pattern" = None
  /\ main_resolve (boundedEngine 16) ["x.md"; "y.md"] (mkNames "i" "o" None)
                  (["x.md"] ++ String "!" "a-very-long-pattern" :: ["!x.md"])
     = Ok ["y.md"; "x.md"].
Proof.
  assert (H : Glob.matcher (boundedEngine 16) "a-very-long-pattern" = None) by reflexivity.
  split; [exact H|].
  rewrite (main_resolve_skips_rejected_pattern
             (boundedEngine 16) ["x.md"; "y.md"] (mkNames "i" "o" None)
             ["x.md"] ["!x.md"] "a-very-long-pattern" H).
  reflexivity.
Defined.

Lemma Set_add_fresh (s : list string) (x : string) :
  ~ In x s -> JS.Set_add s x = s ++ [x].
Proof.
  intros H. unfold JS.Set_add. destruct (JS.Set_has x s) eqn:E; [|reflexivity].
  apply Set_has_In in E. contradiction.
Qed.

Lemma fold_Set_add_NoDup (l : list string) :
  forall s, NoDup (s ++ l) -> fold_left JS.Set_add l s = s ++ l.
Proof.
  induction l as [|x l IH]; intros s H; simpl; [now rewrite app_nil_r|].
  rewrite Set_add_fresh.
  - rewrite IH; rewrite <- app_assoc; [reflexivity | exact H].
  - apply NoDup_remove_2 in H. intros Hin. apply H. apply in_or_app. now left.
Qed.

Lemma filter_filter {A : Type} (p q : A -> bool) (l : list A) :
  filter q (filter p l) = filter (fun x => p x && q x) l.
Proof.
  induction l as [|x l IH]; simpl; [reflexivity|].
  destruct (p x); simpl; [destruct (q x); now rewrite IH | exact IH].
Qed.

(** X6.  Without re-include lines, and with a tree that lists every path
    once, the resolved list is the tree in enumeration order, less the
    paths an ignore glob matches and less the reserved names: nothing is
    reordered. *)
Theorem main_resolve_without_reinclude
        (e : Glob.Engine) (tree : list string) (names : Names)
        (ignorePatterns : list string) (everything : string -> bool)
        (igs : list (string -> bool)) :
  negativePatterns ignorePatterns = [] ->
  NoDup tree ->
  Glob.matcher e "**/*" = Some everything ->
  Glob.compileAll (Glob.ignorer e) (ignoreGlobs names ignorePatterns) = Some igs ->
  main_resolve e tree names ignorePatterns
  = Ok (filter (fun f => everything f
                         && negb (existsb (fun ig => ig f) igs)
                         && negb (isReserved names f))
               tree).
Proof.
  intros Hn Hd Hm Hc. unfold main_resolve, Glob.glob. rewrite Hm, Hc, Hn. simpl.
  unfold JS.Set_new.
  rewrite fold_Set_add_NoDup by (simpl; now apply NoDup_filter).
  simpl. unfold JS.Set_delete, isReserved.
  destruct (JS.truthy (preambleOrEmpty names)); rewrite !filter_filter; f_equal;
    apply filter_ext; intros f;
    rewrite ?negb_orb, ?andb_assoc; simpl; now rewrite ?andb_true_r.
Qed.

Lemma main_resolve_without_reinclude_witness :
  negativePatterns ["*.log"] = []
  /\ NoDup ["b.md"; "x.log"; "a.md"; "output.txt"]
  /\ main_resolve Glob.simple ["b.md"; "x.log"; "a.md"; "output.txt"] defaultNames ["*.log"]
     = Ok ["b.md"; "a.md"].
Proof.
  assert (H1 : negativePatterns ["*.log"] = []) by reflexivity.
  assert (H2 : NoDup ["b.md"; "x.log"; "a.md"; "output.txt"]).
  { repeat constructor; simpl; intuition discriminate. }
  split; [exact H1|]. split; [exact H2|].
  rewrite (main_resolve_without_reinclude
             Glob.simple _ defaultNames ["*.log"] (Glob.simpleMatch "**/*")
             (map Glob.simpleMatch (ignoreGlobs defaultNames ["*.log"]))
             H1 H2 eq_refl eq_refl).
  reflexivity.
Defined.

(** ** Pattern Loader: the shape of the patterns *)

Lemma trimEnd_idem (s : string) : JS.trimEnd (JS.trimEnd s) = JS.trimEnd s.
Proof.
  induction s as [|c s IH]; [reflexivity|]. simpl.
  destruct (JS.isWhiteSpace c && negb (JS.truthy (JS.trimEnd s))) eqn:E; [reflexivity|].
  simpl. rewrite IH, E. reflexivity.
Qed.

Lemma trimStart_head (s : string) :
  match JS.trimStart s with
  | EmptyString => True
  | String c _ => JS.isWhiteSpace c = false
  end.
Proof.
  induction s as [|c s IH]; simpl; [exact I|].
  destruct (JS.isWhiteSpace c) eqn:E; [exact IH | exact E].
Qed.

Lemma trim_head (s : string) :
  match JS.trim s with
  | EmptyString => True
  | String c _ => JS.isWhiteSpace c = false
  end.
Proof.
  unfold JS.trim. pose proof (trimStart_head s) as H.
  destruct (JS.trimStart s) as [|c t]; simpl; [exact I|].
  rewrite H. simpl. exact H.
Qed.

Lemma trim_idem (s : string) : JS.trim (JS.trim s) = JS.trim s.
Proof.
  pose proof (trim_head s) as H. unfold JS.trim at 1.
  destruct (JS.trim s) as [|c t] eqn:E; [reflexivity|].
  simpl JS.trimStart. rewrite H. rewrite <- E. unfold JS.trim. apply trimEnd_idem.
Qed.

Lemma isWhiteSpace_host (c : ascii) :
  JS.isWhiteSpace (if Ascii.eqb c "/" then "\"%char else c) = JS.isWhiteSpace c.
Proof.
  destruct (Ascii.eqb c "/") eqn:E; [|reflexivity].
  apply Ascii.eqb_eq in E. now subst c.
Qed.

Lemma truthy_slashes (s : string) : JS.truthy (JS.slashesToBackslashes s) = JS.truthy s.
Proof. now destruct s. Qed.

Lemma trimStart_slashes (s : string) :
  JS.trimStart (JS.slashesToBackslashes s) = JS.slashesToBackslashes (JS.trimStart s).
Proof.
  induction s as [|c s IH]; [reflexivity|]. simpl.
  rewrite isWhiteSpace_host. now destruct (JS.isWhiteSpace c).
Qed.

Lemma trimEnd_slashes (s : string) :
  JS.trimEnd (JS.slashesToBackslashes s) = JS.slashesToBackslashes (JS.trimEnd s).
Proof.
  induction s as [|c s IH]; [reflexivity|]. simpl.
  rewrite isWhiteSpace_host, IH, truthy_slashes.
  now destruct (JS.isWhiteSpace c && negb (JS.truthy (JS.trimEnd s))).
Qed.

Lemma slashes_idem (s : string) :
  JS.slashesToBackslashes (JS.slashesToBackslashes s) = JS.slashesToBackslashes s.
Proof.
  induction s as [|c s IH]; [reflexivity|]. simpl. rewrite IH. f_equal.
  destruct (Ascii.eqb c "/") eqn:E; [reflexivity | now rewrite E].
Qed.

Lemma startsWith_hash_host (win32 : bool) (t : string) :
  JS.startsWith "#" (hostPattern win32 t) = JS.startsWith "#" t.
Proof.
  destruct win32; [|reflexivity].
  destruct t as [|c t]; [reflexivity|]. simpl.
  destruct (Ascii.eqb c "/") eqn:E; [|reflexivity].
  apply Ascii.eqb_eq in E. now subst c.
Qed.

(** X7.  Every pattern [getIgnoreList] returns is non-empty, does not
    begin with [#], carries no white space at either end, and on win32
    holds no forward slash. *)
Theorem getIgnoreList_patterns_clean (win32 : bool) (raw p : string) :
  In p (getIgnoreList win32 raw) ->
  JS.truthy p = true
  /\ JS.startsWith "#" p = false
  /\ JS.trim p = p
  /\ (win32 = true -> JS.slashesToBackslashes p = p).
Proof.
  unfold getIgnoreList. rewrite getIgnoreList_fold. simpl.
  intros H. apply in_map_iff in H. destruct H as (t & <- & H).
  apply filter_In in H. destruct H as [H K].
  apply in_map_iff in H. destruct H as (line & <- & _).
  apply andb_true_iff in K. destruct K as [K1 K2]. apply negb_true_iff in K2.
  split; [|split; [|split]].
  - destruct win32; simpl; [now rewrite truthy_slashes | assumption].
  - now rewrite startsWith_hash_host.
  - destruct win32; simpl; [|apply trim_idem].
    unfold JS.trim at 1. rewrite trimStart_slashes, trimEnd_slashes.
    f_equal. apply trim_idem.
  - intros ->. simpl. apply slashes_idem.
Qed.

Lemma getIgnoreList_patterns_clean_witness :
  In "src\*.ts" (getIgnoreList true ("  src/*.ts  " ++ JS.LF ++ "# note")%string)
  /\ JS.trim "src\*.ts" = "src\*.ts".
Proof.
  assert (H : In "src\*.ts" (getIgnoreList true ("  src/*.ts  " ++ JS.LF ++ "# note")%string))
    by now left.
  split; [exact H|].
  exact (proj1 (proj2 (proj2 (getIgnoreList_patterns_clean true _ _ H)))).
Defined.

Lemma sameLine_cons (c : ascii) (a b : string) :
  sameLine a b -> sameLine (String c a) (String c b).
Proof. intros [-> | ->]; [now left | now right]. Qed.

Lemma startsWith_LF_toCRLF (s : string) : JS.startsWith JS.LFc (toCRLF s) = false.
Proof.
  destruct s as [|c s]; [reflexivity|]. simpl.
  destruct (Ascii.eqb c JS.LFc) eqn:E; [reflexivity | exact E].
Qed.

Lemma splitLines_toCRLF (s : string) :
  Forall2 sameLine (JS.splitLines (toCRLF s)) (JS.splitLines s).
Proof.
  induction s as [|c r IH]; [repeat constructor|].
  cbn [toCRLF JS.splitLines].
  destruct (Ascii.eqb c JS.LFc) eqn:ELF.
  - (* a bare line feed became CR LF: the same separator *)
    cbn [JS.splitLines JS.startsWith]. change (Ascii.eqb JS.CRc JS.LFc) with false.
    rewrite !Ascii.eqb_refl. cbn [andb].
    constructor; [now left | exact IH].
  - cbn [JS.splitLines]. rewrite ELF.
    destruct (Ascii.eqb c JS.CRc) eqn:ECR; cbn [andb].
    + rewrite startsWith_LF_toCRLF.
      destruct (JS.startsWith JS.LFc r) eqn:S.
      * (* CR LF became CR CR LF: the line gains a carriage return *)
        destruct r as [|c' r']; [discriminate|]. cbn [JS.startsWith] in S.
        apply Ascii.eqb_eq in S. subst c'. apply Ascii.eqb_eq in ECR. subst c.
        cbn [toCRLF JS.splitLines JS.startsWith] in IH |- *.
        rewrite !Ascii.eqb_refl in IH |- *.
        change (Ascii.eqb JS.CRc JS.LFc) with false in IH |- *.
        cbn [andb] in IH |- *.
        inversion IH as [|? ? ? ? _ Htl]; subst.
        constructor; [now right | exact Htl].
      * inversion IH as [|a b la lb Hab Htl]; subst.
        -- repeat constructor.
        -- constructor; [now apply sameLine_cons | exact Htl].
    + inversion IH as [|a b la lb Hab Htl]; subst.
      * repeat constructor.
      * constructor; [now apply sameLine_cons | exact Htl].
Qed.

Lemma trimStart_cr (b : string) :
  JS.trimStart (b ++ String JS.CRc EmptyString)
  = if JS.truthy (JS.trimStart b)
    then (JS.trimStart b ++ String JS.CRc EmptyString)%string
    else EmptyString.
Proof.
  induction b as [|c b IH]; [reflexivity|]. simpl.
  destruct (JS.isWhiteSpace c); [exact IH | reflexivity].
Qed.

Lemma trimEnd_cr (t : string) :
  JS.trimEnd (t ++ String JS.CRc EmptyString) = JS.trimEnd t.
Proof. induction t as [|c t IH]; [reflexivity|]. simpl. now rewrite IH. Qed.

Lemma trim_sameLine (a b : string) : sameLine a b -> JS.trim a = JS.trim b.
Proof.
  intros [-> | ->]; [reflexivity|].
  unfold JS.trim. rewrite trimStart_cr.
  destruct (JS.trimStart b) eqn:E; simpl; [reflexivity|].
  apply (trimEnd_cr (String a s)).
Qed.

(** X8.  An ignore file gives the same patterns whether its lines end in
    LF or in CR LF, also when only some of them do. *)
Theorem getIgnoreList_line_endings (win32 : bool) (raw : string) :
  getIgnoreList win32 (toCRLF raw) = getIgnoreList win32 raw
  /\ ignoreSpec win32 (toCRLF raw) = ignoreSpec win32 raw.
Proof.
  assert (H : getIgnoreList win32 (toCRLF raw) = getIgnoreList win32 raw).
  { unfold getIgnoreList. rewrite !getIgnoreList_fold. simpl. do 2 f_equal.
    pose proof (splitLines_toCRLF raw) as F.
    induction F as [|a b la lb Hab _ IH]; [reflexivity|].
    simpl. now rewrite (trim_sameLine a b Hab), IH. }
  split; [exact H|]. unfold ignoreSpec. now rewrite H.
Qed.

(** ** Bounded Stream Writer: any stream, any ending *)

(** What a copy writes and how it ends, for a ceiling that is not negative. *)
Lemma streamFrom_outcome (readStream : ReadStream) (C : Z) (w : World) :
  (0 <= C)%Z ->
  let total := flat_map toBuffer (dataEvents readStream) in
  let fits := (List.length total <=? Z.to_nat C)%nat in
  exists w',
    streamFrom readStream C w
    = (if fits then match lastEvent readStream with
                    | StreamEnd => Ok tt
                    | StreamError err => Throw err
                    end
       else Ok tt, w')
    /\ sinkBytes (sink w')
       = sinkBytes (sink w)
           ++ (if fits then total
               else firstn (Z.to_nat C) total ++ Utf8.encodeString TRUNCATED).
Proof.
  intros HC total fits. unfold streamFrom.
  destruct (onDataAll_copy C (dataEvents readStream) (mkCopy 0 false) w eq_refl)
    as (st' & w' & E & Hs & Ht); [simpl; lia|].
  simpl in Hs, Ht. rewrite Z.sub_0_r in Hs, Ht.
  exists w'. rewrite (bind_Ok _ _ _ _ _ E). fold total in Hs, Ht. fold fits in Hs, Ht.
  split; [|exact Hs].
  unfold settle. rewrite Ht.
  destruct fits; simpl; [|reflexivity].
  now destruct (lastEvent readStream).
Qed.

(** X9.  For every sequence of chunks a stream delivers, strings or
    buffers, and every ceiling [C >= 0], with [total] the bytes of all
    chunks: if [total] fits under the ceiling it is written whole, and the
    copy then returns when the stream ends and throws the stream's error
    when it fails; otherwise the first [C] bytes and the marker are
    written and the copy returns, however the stream finishes later. *)
Theorem streamFrom_copy_law (readStream : ReadStream) (C : Z) (w : World) :
  (0 <= C)%Z ->
  let total := flat_map toBuffer (dataEvents readStream) in
  let fits := (List.length total <=? Z.to_nat C)%nat in
  exists w',
    streamFrom readStream C w
    = (if fits then match lastEvent readStream with
                    | StreamEnd => Ok tt
                    | StreamError err => Throw err
                    end
       else Ok tt, w')
    /\ sinkBytes (sink w')
       = sinkBytes (sink w)
           ++ (if fits then total
               else firstn (Z.to_nat C) total ++ Utf8.encodeString TRUNCATED).
Proof. exact (streamFrom_outcome readStream C w). Qed.

Lemma streamFrom_copy_law_witness :
  (0 <= 2)%Z
  /\ exists w',
       streamFrom (mkReadStream [ChunkBuffer [x61]; ChunkString [0x62; 0x63]%N]
                                (StreamError "EIO")) 2 emptyWorld
       = (Ok tt, w')
       /\ sinkBytes (sink w') = [x61; x62] ++ Utf8.encodeString TRUNCATED.
Proof.
  assert (H : (0 <= 2)%Z) by lia.
  split; [exact H|].
  exact (streamFrom_copy_law
           (mkReadStream [ChunkBuffer [x61]; ChunkString [0x62; 0x63]%N] (StreamError "EIO"))
           2 emptyWorld H).
Defined.

(** X10.  Under a negative ceiling, as [--max-size -5] gives, nothing is
    ever copied whole: the first chunk is cut [-C] bytes before its end
    (to nothing when it is that short), the marker follows, and the copy
    returns whatever the stream does next. *)
Theorem streamFrom_negative_ceiling
        (chunk : Chunk) (rest : list Chunk) (last : Terminal) (C : Z) (w : World) :
  (C < 0)%Z ->
  let chunkBuffer := toBuffer chunk in
  exists w',
    streamFrom (mkReadStream (chunk :: rest) last) C w = (Ok tt, w')
    /\ sink w'
       = sink w ++ [WBuf (firstn (Z.to_nat (Z.of_nat (List.length chunkBuffer) + C))
                                 chunkBuffer);
                    WStr TRUNCATED].
Proof.
  intros HC chunkBuffer.
  set (w1 := snd (outputStream_write (WStr TRUNCATED)
                    (snd (outputStream_write
                            (WBuf (Buffer_slice0 chunkBuffer (C - 0))) w)))).
  assert (E1 : onData C (mkCopy 0 false) chunk w = (Ok (mkCopy 0 true), w1)).
  { unfold onData. cbn [truncated bytesWritten]. fold chunkBuffer.
    destruct (Z.gtb_spec (0 + Z.of_nat (List.length chunkBuffer)) C) as [G | G]; [|lia].
    reflexivity. }
  assert (E2 : onDataAll C (mkCopy 0 false) (chunk :: rest) w = (Ok (mkCopy 0 true), w1)).
  { cbn [onDataAll]. rewrite (bind_Ok _ _ _ _ _ E1). now apply onDataAll_truncated. }
  exists w1. unfold streamFrom. cbn [dataEvents lastEvent].
  rewrite (bind_Ok _ _ _ _ _ E2). split; [reflexivity|].
  subst w1. simpl. rewrite <- app_assoc. simpl.
  do 3 f_equal. unfold Buffer_slice0.
  destruct (Z.ltb_spec (C - 0) 0); [|lia]. f_equal. lia.
Qed.

Lemma streamFrom_negative_ceiling_witness :
  (-1 < 0)%Z
  /\ exists w',
       streamFrom (mkReadStream [ChunkBuffer [x61; x62; x63]] StreamEnd) (-1) emptyWorld
       = (Ok tt, w')
       /\ sink w' = [WBuf [x61; x62]; WStr TRUNCATED].
Proof.
  assert (H : (-1 < 0)%Z) by lia.
  split; [exact H|].
  exact (streamFrom_negative_ceiling (ChunkBuffer [x61; x62; x63]) [] StreamEnd (-1)
                                     emptyWorld H).
Defined.

(** ** Binary Classifier: what it touches *)

(** The state after a classification and the calls it made. *)
Lemma isBinaryFile_trace (fs : string -> FileState) (p : string) (w : World) :
  exists calls,
    snd (isBinaryFile fs p w)
    = mkWorld (sink w) (sinkEnded w) (warnings w) (barIncrements w) (barStops w)
              (fsCalls w ++ calls)
    /\ (calls = [] \/ calls = [CallOpen p] \/ calls = [CallOpen p; CallRead p]
        \/ calls = [CallOpen p; CallRead p; CallClose p])
    /\ (JS.toLowerCase (Path.extname p) <> ".bin" ->
        openResult (fs p) = true -> readResult (fs p) = None ->
        calls = [CallOpen p; CallRead p]).
Proof.
  unfold isBinaryFile.
  destruct (String.eqb (JS.toLowerCase (Path.extname p)) ".bin") eqn:E.
  - exists []. apply String.eqb_eq in E. rewrite app_nil_r.
    split; [now destruct w|]. split; [now left | intros N; now contradict N].
  - cbv [tryCatch bind fsp_open fd_read fd_close fs_called ret throw].
    destruct (openResult (fs p)) eqn:Ho.
    + cbv [tryCatch bind fsp_open fd_read fd_close fs_called ret throw].
      destruct (readResult (fs p)) as [content|] eqn:Hr.
      * cbv [tryCatch bind fsp_open fd_read fd_close fs_called ret throw].
        exists [CallOpen p; CallRead p; CallClose p].
        split; [|split; [right; right; right; reflexivity
                        | intros _ _ N; discriminate N]].
        destruct (closeResult (fs p)); cbn [snd sink sinkEnded warnings barIncrements
                                               barStops fsCalls];
          now rewrite <- !app_assoc.
      * exists [CallOpen p; CallRead p].
        split; [|split; [right; right; now left | reflexivity]].
        cbn [snd sink sinkEnded warnings barIncrements barStops fsCalls].
        now rewrite <- !app_assoc.
    + exists [CallOpen p].
      split; [|split; [right; now left | intros _ N; discriminate N]].
      reflexivity.
Qed.

(** X11.  [isBinaryFile] changes nothing but the record of file-system
    calls: it writes nothing to the sink, prints no warning and leaves the
    bar alone.  For a [.bin] name it makes no call.  Otherwise its calls
    are [open], [read], [close] on the given path, in that order, cut
    short at the first one that fails: [open] alone when it fails,
    [open] and [read] when the read fails, so that the descriptor it
    opened is never closed, and all three in every other case. *)
Theorem isBinaryFile_effects (fs : string -> FileState) (p : string) (w : World) :
  let calls :=
    if String.eqb (JS.toLowerCase (Path.extname p)) ".bin" then []
    else if negb (openResult (fs p)) then [CallOpen p]
    else match readResult (fs p) with
         | None => [CallOpen p; CallRead p]
         | Some _ => [CallOpen p; CallRead p; CallClose p]
         end in
  snd (isBinaryFile fs p w)
  = mkWorld (sink w) (sinkEnded w) (warnings w) (barIncrements w) (barStops w)
            (fsCalls w ++ calls).
Proof.
  unfold isBinaryFile.
  destruct (String.eqb (JS.toLowerCase (Path.extname p)) ".bin").
  - cbv zeta. rewrite app_nil_r. now destruct w.
  - cbv [tryCatch bind fsp_open fd_read fd_close fs_called ret throw].
    destruct (openResult (fs p)); [|reflexivity].
    cbv [tryCatch bind fsp_open fd_read fd_close fs_called ret throw].
    destruct (readResult (fs p)) as [content|].
    + cbv [tryCatch bind fsp_open fd_read fd_close fs_called ret throw].
      destruct (closeResult (fs p));
        cbn [snd sink sinkEnded warnings barIncrements barStops fsCalls negb];
        now rewrite <- !app_assoc.
    + cbn [snd sink sinkEnded warnings barIncrements barStops fsCalls negb].
      now rewrite <- !app_assoc.
Qed.

(** A file that opens and cannot be read: the classifier says [false]
    and leaves after [open] and [read], without [close]. *)
Example isBinaryFile_failed_read :
  isBinaryFile (fsOf [("r/locked.txt", mkFileState None true None true [] StreamEnd)])
               "r/locked.txt" emptyWorld
  = (Ok false,
     mkWorld [] false [] 0 0 [CallOpen "r/locked.txt"; CallRead "r/locked.txt"]).
Proof. reflexivity. Qed.

(** ** Document Assembler: sections, warnings and the whole document *)

Lemma bind_Ok_inv {A B : Type} (c : M A) (k : A -> M B) (w w' : World) (b : B) :
  bind c k w = (Ok b, w') -> exists a w1, c w = (Ok a, w1) /\ k a w1 = (Ok b, w').
Proof.
  unfold bind. destruct (c w) as [[a|err|code] w1]; intros H; try discriminate H.
  now exists a, w1.
Qed.

Lemma Silent_bind {A B : Type} (c : M A) (k : A -> M B) :
  Silent c -> (forall a, Writes (k a)) -> (forall a, Silent (k a)) -> Silent (bind c k).
Proof.
  intros S Wk Sk. unfold Silent, bind in *.
  destruct (c emptyWorld) as [r d] eqn:E. simpl in S.
  destruct r as [a|err|code]; simpl; auto.
  rewrite (Wk a d). simpl. now rewrite S, (Sk a).
Qed.

Lemma Silent_tryCatch {A : Type} (c : M A) (h : string -> M A) :
  Silent c -> (forall err, Writes (h err)) -> (forall err, Silent (h err)) ->
  Silent (tryCatch c h).
Proof.
  intros S Wh Sh. unfold Silent, tryCatch in *.
  destruct (c emptyWorld) as [r d] eqn:E. simpl in S.
  destruct r as [a|err|code]; simpl; auto.
  rewrite (Wh err d). simpl. now rewrite S, (Sh err).
Qed.

#[local] Hint Extern 2 (Silent _) => reflexivity : js.

Ltac silent :=
  repeat first
    [ progress intros
    | solve [auto with js]
    | apply Silent_bind
    | apply Silent_tryCatch
    | solve [writes]
    | match goal with
      | |- Silent (match ?x with _ => _ end) => destruct x
      | |- Silent (if ?x then _ else _) => destruct x
      | |- Silent (let '(_, _) := ?x in _) => destruct x
      end ].

Lemma Silent_onDataAll (maxSize : Z) (chunks : list Chunk) :
  forall st, Silent (onDataAll maxSize st chunks).
Proof.
  induction chunks as [|c rest IH]; intros st; simpl.
  - silent.
  - apply Silent_bind; [unfold onData; silent | intros; apply Writes_onDataAll | apply IH].
Qed.

Section Sections.

Variable fs : string -> FileState.
Variable path_join : string -> string -> string.
Variable repoRoot : string.
Variable maxSize : Z.

Lemma Silent_streamFileWithLimit p : Silent (streamFileWithLimit fs p maxSize).
Proof.
  unfold streamFileWithLimit, streamFrom, settle.
  pose proof Silent_onDataAll. pose proof Writes_onDataAll. silent.
Qed.

Lemma Silent_isBinaryFile p : Silent (isBinaryFile fs p).
Proof.
  unfold Silent. destruct (isBinaryFile_trace fs p emptyWorld) as (calls & E & _).
  now rewrite E.
Qed.

(** One pass of the loop: it returns, and it warns exactly when its
    [try] block did not run to the end. *)
Lemma writeOne_warns idx p w :
  exists b w',
    writeOne fs path_join repoRoot maxSize idx p w = (Ok b, w')
    /\ warnings w' = warnings w ++ (if b then [] else [skipWarning p]).
Proof.
  unfold writeOne.
  match goal with |- context [tryCatch ?c ?h] => set (body := c); set (handler := h) end.
  assert (Wb : Writes body).
  { subst body. pose proof (Writes_isBinaryFile fs). pose proof (Writes_fsp_stat fs).
    pose proof (Writes_streamFileWithLimit fs). writes. }
  assert (Sb : Silent body).
  { subst body. pose proof (Writes_isBinaryFile fs). pose proof (Writes_fsp_stat fs).
    pose proof (Writes_streamFileWithLimit fs).
    pose proof Silent_isBinaryFile. pose proof Silent_streamFileWithLimit.
    unfold fsp_stat. silent. }
  assert (Tb : forall v b v', body v = (Ok b, v') -> b = true).
  { subst body. intros v b v' H.
    apply bind_Ok_inv in H. destruct H as (stats & v1 & _ & H).
    apply bind_Ok_inv in H. destruct H as (isBinary & v2 & _ & H).
    apply bind_Ok_inv in H. destruct H as (? & v3 & _ & H).
    apply bind_Ok_inv in H. destruct H as (? & v4 & _ & H).
    apply bind_Ok_inv in H. destruct H as (? & v5 & _ & H).
    unfold ret in H. now injection H as <- _. }
  unfold tryCatch. rewrite (Wb w). unfold Silent in Sb.
  destruct (body emptyWorld) as [r d] eqn:E. simpl in Sb |- *.
  destruct r as [b|err|code].
  - rewrite (Tb _ _ _ E). exists true. eexists. split; [reflexivity|].
    simpl. now rewrite Sb.
  - exists false. eexists. subst handler. split; [reflexivity|].
    simpl. now rewrite Sb, app_nil_r.
  - exfalso. subst body.
    assert (St : Stays
                   (stats <- fsp_stat fs (path_join repoRoot p) ;;
                    isBinary <- isBinaryFile fs (path_join repoRoot p) ;;
                    outputStream_write (WStr (sectionHeader (idx + 1))) ;;
                    outputStream_write (WStr (p ++ JS.LF)%string) ;;
                    (if isBinary
                     then outputStream_write (WStr (binaryMeta stats ++ JS.LF)%string)
                     else streamFileWithLimit fs (path_join repoRoot p) maxSize ;;
                          outputStream_write (WStr JS.LF)) ;;
                    ret true)).
    { pose proof (Writes_isBinaryFile fs). pose proof (Writes_fsp_stat fs).
      pose proof (Writes_streamFileWithLimit fs). pose proof (Stays_fsp_stat fs).
      pose proof (Returns_isBinaryFile fs). pose proof (Stays_streamFileWithLimit fs).
      stays. }
    specialize (St code). now rewrite E in St.
Qed.

End Sections.

Lemma filter_partition_length {A : Type} (f : A -> bool) (l : list A) :
  List.length (filter f l) + List.length (filter (fun x => negb (f x)) l) = List.length l.
Proof.
  induction l as [|x l IH]; simpl; [reflexivity|].
  destruct (f x); simpl; lia.
Qed.

Lemma indexedFrom_length (files : list string) :
  forall idx, List.length (indexedFrom idx files) = List.length files.
Proof. induction files; intros; simpl; [reflexivity | now rewrite IHfiles]. Qed.

Lemma writeFilesFrom_warnings fs path_join repoRoot maxSize bar files :
  forall idx w,
  exists w',
    writeFilesFrom fs path_join repoRoot maxSize bar idx files w = (Ok tt, w')
    /\ warnings w'
       = warnings w
           ++ map (fun entry => skipWarning (snd entry))
                  (filter (fun entry => negb (entryCompleted fs path_join repoRoot maxSize entry))
                          (indexedFrom idx files)).
Proof.
  induction files as [|p rest IH]; intros idx w; simpl.
  - exists w. now rewrite app_nil_r.
  - destruct (writeOne_warns fs path_join repoRoot maxSize idx p w) as (b & w1 & E & Hw).
    destruct (writeOne_run fs path_join repoRoot maxSize idx p w) as (d & E' & _).
    rewrite E in E'. injection E' as Hb _.
    rewrite (bind_Ok _ _ _ _ _ E). rewrite <- Hb.
    destruct b; simpl.
    + destruct bar; simpl.
      * erewrite bind_Ok by reflexivity.
        destruct (IH (S idx) (snd (bar_increment w1))) as (w' & E2 & Hw2).
        exists w'. split; [exact E2|]. rewrite Hw2. simpl. now rewrite Hw, app_nil_r.
      * erewrite bind_Ok by reflexivity.
        destruct (IH (S idx) w1) as (w' & E2 & Hw2).
        exists w'. split; [exact E2|]. rewrite Hw2. now rewrite Hw, app_nil_r.
    + erewrite bind_Ok by reflexivity.
      destruct (IH (S idx) w1) as (w' & E2 & Hw2).
      exists w'. split; [exact E2|]. rewrite Hw2, Hw, <- app_assoc. reflexivity.
Qed.

(** X12.  Every entry of the list is accounted for: with a progress bar,
    the loop goes through the whole list whatever fails, each entry
    either increments the bar or prints the skip warning that names it,
    never both and never neither, and the warnings come in list order. *)
Theorem writeFilesWithIndex_accounts_for_every_entry
        fs path_join repoRoot maxSize files w :
  let run := writeFilesWithIndex fs path_join repoRoot maxSize true files w in
  let skipped :=
    filter (fun entry => negb (entryCompleted fs path_join repoRoot maxSize entry))
           (indexedFrom 0 files) in
  fst run = Ok tt
  /\ warnings (snd run) = warnings w ++ map (fun entry => skipWarning (snd entry)) skipped
  /\ barIncrements (snd run) = barIncrements w + (List.length files - List.length skipped)
  /\ List.length skipped <= List.length files.
Proof.
  intros run skipped.
  destruct (writeFilesWithIndex_run fs path_join repoRoot maxSize true files w)
    as (w' & E & _ & Hi & _).
  destruct (writeFilesFrom_warnings fs path_join repoRoot maxSize true files 0 w)
    as (w1 & E1 & Hw).
  assert (W : warnings w' = warnings w1).
  { unfold writeFilesWithIndex in E. rewrite (bind_Ok _ _ _ _ _ E1) in E.
    simpl in E. now injection E as <-. }
  pose proof (filter_partition_length (entryCompleted fs path_join repoRoot maxSize)
                                      (indexedFrom 0 files)) as P.
  rewrite indexedFrom_length in P. fold skipped in P, Hw.
  subst run. rewrite E. simpl.
  split; [reflexivity|]. split; [now rewrite W|].
  unfold completedCount in Hi. split; lia.
Qed.

Lemma tryCatch_Ok {A : Type} (c : M A) (h : string -> M A) (w w' : World) (a : A) :
  c w = (Ok a, w') -> tryCatch c h w = (Ok a, w').
Proof. intros E. unfold tryCatch. now rewrite E. Qed.

Lemma tryCatch_bind_Throw {A B : Type} (c : M A) (k : A -> M B) (h : string -> M B)
      (w w' : World) (err : string) :
  c w = (Throw err, w') -> tryCatch (bind c k) h w = h err w'.
Proof. intros E. unfold tryCatch, bind. now rewrite E. Qed.

Lemma bind_Throw {A B : Type} (c : M A) (k : A -> M B) (w w' : World) (err : string) :
  c w = (Throw err, w') -> bind c k w = (Throw err, w').
Proof. intros E. unfold bind. now rewrite E. Qed.

Lemma isBinaryFile_run fs p w answer :
  fst (isBinaryFile fs p emptyWorld) = Ok answer ->
  exists calls,
    isBinaryFile fs p w
    = (Ok answer,
       mkWorld (sink w) (sinkEnded w) (warnings w) (barIncrements w) (barStops w)
               (fsCalls w ++ calls))
    /\ (forall c, In c calls -> c = CallOpen p \/ c = CallRead p \/ c = CallClose p).
Proof.
  intros H. destruct (isBinaryFile_trace fs p w) as (calls & E & Hc & _).
  exists calls. split.
  - rewrite (Writes_isBinaryFile fs p w) in E |- *. rewrite H. simpl in E |- *.
    now rewrite E.
  - intros c Hin.
    destruct Hc as [-> | [-> | [-> | ->]]]; simpl in Hin; intuition.
Qed.

(** X13.  For a file that [stat] finds and the classifier calls binary,
    the section is exactly three lines: the separator with the position
    plus one, the path, and the metadata line with the size and the
    modification time.  No content is written, no read stream is opened,
    and the entry counts as completed. *)
Theorem writeOne_binary_section fs path_join repoRoot maxSize idx p st w :
  statResult (fs (path_join repoRoot p)) = Some st ->
  fst (isBinaryFile fs (path_join repoRoot p) emptyWorld) = Ok true ->
  exists w',
    writeOne fs path_join repoRoot maxSize idx p w = (Ok true, w')
    /\ sink w'
       = sink w ++ [WStr ("----[" ++ JS.toString (idx + 1) ++ "]" ++ JS.LF)%string;
                    WStr (p ++ JS.LF)%string;
                    WStr ("[BINARY FILE] Size: " ++ JS.toStringN (size st)
                            ++ " bytes, Modified: " ++ mtimeISO st ++ JS.LF)%string]
    /\ ~ In (CallCreateReadStream (path_join repoRoot p))
            (skipn (List.length (fsCalls w)) (fsCalls w')).
Proof.
  intros Hs Hb. unfold writeOne.
  set (abs := path_join repoRoot p) in *.
  assert (E1 : fsp_stat fs abs w = (Ok st, snd (fs_called (CallStat abs) w))).
  { unfold fsp_stat, bind. simpl. rewrite Hs. reflexivity. }
  rewrite (tryCatch_bind_Ok _ _ _ _ _ _ E1).
  destruct (isBinaryFile_run fs abs (snd (fs_called (CallStat abs) w)) true Hb)
    as (calls & E2 & Hc).
  rewrite (tryCatch_bind_Ok _ _ _ _ _ _ E2).
  erewrite tryCatch_bind_Ok by reflexivity.
  erewrite tryCatch_bind_Ok by reflexivity.
  erewrite tryCatch_bind_Ok by reflexivity.
  eexists. split; [reflexivity|]. simpl.
  split.
  - rewrite <- !app_assoc. simpl. unfold sectionHeader, binaryMeta.
    now rewrite !append_assoc.
  - rewrite <- app_assoc, skipn_app, Nat.sub_diag, skipn_all. simpl.
    intros [H | H]; [discriminate H|].
    destruct (Hc _ H) as [X | [X | X]]; discriminate X.
Qed.

Lemma writeOne_binary_section_witness :
  statResult (fsTests (joinPlain "r" "image.bin"))
  = Some (mkStats 6 "2025-01-02T00:00:00.000Z")
  /\ fst (isBinaryFile fsTests (joinPlain "r" "image.bin") emptyWorld) = Ok true
  /\ exists w',
       writeOne fsTests joinPlain "r" 4 1 "image.bin" emptyWorld = (Ok true, w')
       /\ sink w'
          = [WStr ("----[2]" ++ JS.LF)%string; WStr ("image.bin" ++ JS.LF)%string;
             WStr ("[BINARY FILE] Size: 6 bytes, Modified: 2025-01-02T00:00:00.000Z"
                     ++ JS.LF)%string].
Proof.
  assert (H1 : statResult (fsTests (joinPlain "r" "image.bin"))
               = Some (mkStats 6 "2025-01-02T00:00:00.000Z")) by reflexivity.
  assert (H2 : fst (isBinaryFile fsTests (joinPlain "r" "image.bin") emptyWorld) = Ok true)
    by reflexivity.
  split; [exact H1|]. split; [exact H2|].
  destruct (writeOne_binary_section fsTests joinPlain "r" 4 1 "image.bin" _ emptyWorld
                                    H1 H2) as (w' & E & Hs & _).
  exists w'. split; [exact E | exact Hs].
Defined.


(** X14.  For a file that [stat] finds and the classifier calls text,
    under a ceiling [C >= 0], with [total] the bytes the read stream
    delivers: the section is the separator line, the path line, then
    [total] when it fits and else its first [C] bytes and the marker.
    The closing newline is written, and the entry completed, unless the
    stream failed before any truncation: then the lines and bytes
    already written stay in the document without a closing newline. *)
Theorem writeOne_text_section fs path_join repoRoot C idx p st w :
  (0 <= C)%Z ->
  statResult (fs (path_join repoRoot p)) = Some st ->
  fst (isBinaryFile fs (path_join repoRoot p) emptyWorld) = Ok false ->
  let readStream := createReadStream (streamChunks (fs (path_join repoRoot p)))
                                     (streamLast (fs (path_join repoRoot p))) in
  let total := flat_map toBuffer (dataEvents readStream) in
  let fits := (List.length total <=? Z.to_nat C)%nat in
  let completed :=
    negb fits || match streamLast (fs (path_join repoRoot p)) with
                 | StreamEnd => true
                 | StreamError _ => false
                 end in
  exists w',
    writeOne fs path_join repoRoot C idx p w = (Ok completed, w')
    /\ sinkBytes (sink w')
       = sinkBytes (sink w)
           ++ Utf8.encodeString ("----[" ++ JS.toString (idx + 1) ++ "]" ++ JS.LF)
           ++ Utf8.encodeString (p ++ JS.LF)
           ++ (if fits then total
               else firstn (Z.to_nat C) total ++ Utf8.encodeString TRUNCATED)
           ++ (if completed then Utf8.encodeString JS.LF else []).
Proof.
  intros HC Hs Hb readStream total fits completed. unfold writeOne.
  set (abs := path_join repoRoot p) in *.
  assert (E1 : fsp_stat fs abs w = (Ok st, snd (fs_called (CallStat abs) w))).
  { unfold fsp_stat, bind. simpl. rewrite Hs. reflexivity. }
  rewrite (tryCatch_bind_Ok _ _ _ _ _ _ E1).
  destruct (isBinaryFile_run fs abs (snd (fs_called (CallStat abs) w)) false Hb)
    as (calls & E2 & _).
  rewrite (tryCatch_bind_Ok _ _ _ _ _ _ E2).
  erewrite tryCatch_bind_Ok by reflexivity.
  erewrite tryCatch_bind_Ok by reflexivity.
  cbv beta iota.
  match goal with |- context [tryCatch _ _ ?v] => set (w4 := v) end.
  assert (S4 : sinkBytes (sink w4)
               = sinkBytes (sink w)
                   ++ Utf8.encodeString ("----[" ++ JS.toString (idx + 1) ++ "]" ++ JS.LF)
                   ++ Utf8.encodeString (p ++ JS.LF)).
  { subst w4. unfold outputStream_write, fs_called. cbn [snd sink].
    rewrite !sinkBytes_app.
    change (sinkBytes [WStr (sectionHeader (idx + 1))])
      with (Utf8.encodeString (sectionHeader (idx + 1)) ++ []).
    change (sinkBytes [WStr (p ++ JS.LF)%string])
      with (Utf8.encodeString (p ++ JS.LF) ++ []).
    rewrite !app_nil_r. now rewrite <- app_assoc. }
  destruct (streamFrom_outcome readStream C
              (snd (fs_called (CallCreateReadStream abs) w4)) HC)
    as (w5 & E5 & S5).
  fold total in E5, S5. fold fits in E5, S5.
  assert (E5' : streamFileWithLimit fs abs C w4
                = (if fits then match streamLast (fs abs) with
                                | StreamEnd => Ok tt
                                | StreamError err => Throw err
                                end
                   else Ok tt, w5)).
  { unfold streamFileWithLimit. erewrite bind_Ok by reflexivity. exact E5. }
  change (sink (snd (fs_called (CallCreateReadStream abs) w4))) with (sink w4) in S5.
  rewrite S4 in S5. clearbody w4.
  subst completed.
  destruct fits; simpl negb; simpl orb.
  - destruct (streamLast (fs abs)) as [|err].
    + erewrite tryCatch_bind_Ok
        by (erewrite bind_Ok by exact E5'; reflexivity).
      eexists. split; [reflexivity|].
      unfold tryCatch, bind, ret, outputStream_write. cbn [snd sink].
      rewrite sinkBytes_app, S5.
      change (sinkBytes [WStr JS.LF]) with (Utf8.encodeString JS.LF ++ []).
      now rewrite app_nil_r, <- !app_assoc.
    + erewrite tryCatch_bind_Throw by (apply bind_Throw; exact E5').
      eexists. split; [reflexivity|].
      unfold bind, ret, console_warn. cbn [snd sink].
      rewrite S5. now rewrite <- !app_assoc, !app_nil_r.
  - erewrite tryCatch_bind_Ok
      by (erewrite bind_Ok by exact E5'; reflexivity).
    eexists. split; [reflexivity|].
    unfold tryCatch, bind, ret, outputStream_write. cbn [snd sink].
    rewrite sinkBytes_app, S5.
    change (sinkBytes [WStr JS.LF]) with (Utf8.encodeString JS.LF ++ []).
    now rewrite app_nil_r, <- !app_assoc.
Qed.

Lemma writeOne_text_section_witness :
  (0 <= 4)%Z
  /\ statResult (fsDigits (joinPlain "r" "digits.txt"))
     = Some (mkStats 10 "2025-01-01T00:00:00.000Z")
  /\ fst (isBinaryFile fsDigits (joinPlain "r" "digits.txt") emptyWorld) = Ok false
  /\ exists w',
       writeOne fsDigits joinPlain "r" 4 0 "digits.txt" emptyWorld = (Ok true, w')
       /\ sinkBytes (sink w')
          = bytesOf ("----[1]" ++ JS.LF ++ "digits.txt" ++ JS.LF ++ "0123" ++ JS.LF
                       ++ "[TRUNCATED]" ++ JS.LF ++ JS.LF).
Proof.
  assert (H0 : (0 <= 4)%Z) by lia.
  assert (H1 : statResult (fsDigits (joinPlain "r" "digits.txt"))
               = Some (mkStats 10 "2025-01-01T00:00:00.000Z")) by reflexivity.
  assert (H2 : fst (isBinaryFile fsDigits (joinPlain "r" "digits.txt") emptyWorld)
               = Ok false) by reflexivity.
  split; [exact H0|]. split; [exact H1|]. split; [exact H2|].
  destruct (writeOne_text_section fsDigits joinPlain "r" 4 0 "digits.txt" _ emptyWorld
                                  H0 H1 H2) as (w' & E & Hs).
  exists w'. split; [exact E | exact Hs].
Defined.

(** X15.  Whatever the state of the files, [main] gets through the
    writing of the document: it never exits there, and the sink receives
    the preamble, the table of contents, the sections of the entries in
    list order and, last, the end marker line; then the stream is ended. *)
Theorem main_write_document
        fs path_join repoRoot preambleText files maxSize bar w :
  exists w',
    main_write fs path_join repoRoot preambleText files maxSize bar w = (Ok tt, w')
    /\ sink w'
       = sink w
           ++ WStr preambleText :: WStr (buildTableOfContents files)
           :: flat_map (entryWrites fs path_join repoRoot maxSize) (indexedFrom 0 files)
           ++ [WStr ("--END--" ++ JS.LF)%string]
    /\ sinkEnded w' = true.
Proof.
  unfold main_write.
  erewrite bind_Ok by reflexivity.
  erewrite bind_Ok by reflexivity.
  match goal with |- context [tryCatch ?c ?h] =>
    match goal with |- context [bind (tryCatch c h) _ ?v] =>
      destruct (writeFilesWithIndex_run fs path_join repoRoot maxSize bar files v)
        as (w3 & E & Hs & _);
      rewrite (bind_Ok _ _ _ _ _ (tryCatch_Ok c h v w3 tt E))
    end
  end.
  erewrite bind_Ok by reflexivity.
  eexists. split; [reflexivity|]. simpl. split; [|reflexivity].
  rewrite Hs. simpl. rewrite <- !app_assoc. reflexivity.
Qed.

(** ** Numbers in and out: [parseInt] reads what the templates print *)

Lemma parseDigits_string_of_uint (d : Decimal.uint) (rest : string) :
  match rest with
  | EmptyString => True
  | String c _ => JS.digitValue c = None
  end ->
  forall acc : nat,
    JS.parseDigits (Z.of_nat acc) (NilEmpty.string_of_uint d ++ rest)
    = Z.of_nat (Nat.of_uint_acc d acc).
Proof.
  intros Hrest.
  induction d as [|d IH|d IH|d IH|d IH|d IH|d IH|d IH|d IH|d IH|d IH]; intros acc;
    try (cbn [NilEmpty.string_of_uint String.append JS.parseDigits Nat.of_uint_acc];
         match goal with
         | |- context [JS.digitValue ?c] =>
             let v := eval vm_compute in (JS.digitValue c) in
             change (JS.digitValue c) with v
         end;
         cbv iota; rewrite <- IH; f_equal; rewrite Nat.tail_mul_spec; lia).
  cbn [NilEmpty.string_of_uint String.append Nat.of_uint_acc].
  destruct rest as [|c rest]; [reflexivity|]. cbn [JS.parseDigits]. now rewrite Hrest.
Qed.

Lemma to_uint_nonnil (n : nat) : Nat.to_uint n <> Decimal.Nil.
Proof.
  rewrite <- (DecimalNat.Unsigned.of_to n) at 1.
  rewrite DecimalNat.Unsigned.to_of. apply DecimalFacts.unorm_nonnil.
Qed.

Lemma toString_head (n : nat) :
  exists c s, JS.toString n = String c s
              /\ JS.digitValue c <> None /\ JS.isWhiteSpace c = false
              /\ Ascii.eqb c "-" = false /\ Ascii.eqb c "+" = false
              /\ JS.toString n = NilEmpty.string_of_uint (Nat.to_uint n).
Proof.
  unfold JS.toString, NilZero.string_of_uint.
  pose proof (to_uint_nonnil n) as H.
  destruct (Nat.to_uint n) as [|d|d|d|d|d|d|d|d|d|d]; [contradiction| ..];
    eexists; eexists; (split; [reflexivity|]); repeat split; discriminate.
Qed.

Lemma parseUnsigned_toString (n : nat) (rest : string) :
  match rest with
  | EmptyString => True
  | String c _ => JS.digitValue c = None
  end ->
  JS.parseUnsigned (JS.toString n ++ rest) = Some (Z.of_nat n).
Proof.
  intros Hrest.
  destruct (toString_head n) as (c & s & E & Hd & _ & _ & _ & E').
  unfold JS.parseUnsigned.
  destruct (JS.toString n ++ rest)%string as [|a whole] eqn:W;
    [rewrite E in W; discriminate W|].
  assert (a = c) as -> by (rewrite E in W; simpl in W; now injection W).
  destruct (JS.digitValue c) eqn:D; [|contradiction].
  rewrite <- W, E'. change 0%Z with (Z.of_nat 0).
  rewrite (parseDigits_string_of_uint _ rest Hrest 0).
  f_equal. f_equal. apply DecimalNat.Unsigned.of_to.
Qed.

(** Up to 2^53 an integer is its own double. *)
Lemma toDouble_exact (v : Z) : (0 <= v <= 2 ^ 53)%Z -> JS.toDouble v = v.
Proof.
  intros [H0 H1]. unfold JS.toDouble.
  destruct (Z.leb_spec (Z.log2 v - 52) 0) as [L | L]; [reflexivity|].
  assert (P : (0 < v)%Z) by (destruct v; [simpl in L; lia | lia | lia]).
  pose proof (Z.log2_spec v P) as [S _].
  pose proof (Z.pow_le_mono_r 2 53 (Z.log2 v) ltac:(lia) ltac:(lia)) as M.
  assert (E : v = (2 ^ 53)%Z) by lia.
  subst v. reflexivity.
Qed.

(** [parseInt] reads back the number a template literal printed, signed
    or not, and stops at the first character that is not a digit. *)
Lemma parseInt_reads_toString (n : nat) (rest : string) :
  match rest with
  | EmptyString => True
  | String c _ => JS.digitValue c = None
  end ->
  (Z.of_nat n <= 2 ^ 53)%Z ->
  JS.parseInt (JS.toString n ++ rest) = Some (Z.of_nat n)
  /\ JS.parseInt ("-" ++ JS.toString n ++ rest) = Some (- Z.of_nat n)%Z.
Proof.
  intros Hrest Hn. pose proof (parseUnsigned_toString n rest Hrest) as P.
  assert (D : JS.toDouble (Z.of_nat n) = Z.of_nat n) by (apply toDouble_exact; lia).
  split.
  - destruct (toString_head n) as (c & s & E & _ & Hw & Hm & Hp & _).
    unfold JS.parseInt. rewrite E in P |- *. cbn [String.append JS.trimStart] in P |- *.
    rewrite Hw, Hm, Hp, P. cbn [option_map]. now rewrite D.
  - unfold JS.parseInt. cbn [String.append JS.trimStart].
    change (JS.isWhiteSpace "-") with false. cbv iota.
    rewrite Ascii.eqb_refl, P. cbn [option_map]. now rewrite D.
Qed.

(** X16.  [--max-size N] with a positive decimal [N] of at most 2^53
    gives the ceiling [N], and [--max-size -N] gives the ceiling [-N]: a
    negative value is taken as it is, not replaced by the default. *)
Theorem main_maxSize_reads_decimal (n : nat) :
  0 < n ->
  (Z.of_nat n <= 2 ^ 53)%Z ->
  main_maxSize (Some (JS.toString n)) = Z.of_nat n
  /\ main_maxSize (Some ("-" ++ JS.toString n)%string) = (- Z.of_nat n)%Z.
Proof.
  intros Hn Hb. destruct (parseInt_reads_toString n "" I Hb) as [P N].
  rewrite append_empty_r in P, N.
  destruct (toString_head n) as (c & s & E & _).
  assert (T : JS.truthy (JS.toString n) = true) by now rewrite E.
  unfold main_maxSize. split.
  - rewrite T, P.
    destruct (Z.eqb_spec (Z.of_nat n) 0); [lia | reflexivity].
  - change (JS.truthy ("-" ++ JS.toString n)) with true. cbv iota. rewrite N.
    destruct (Z.eqb_spec (- Z.of_nat n) 0); [lia | reflexivity].
Qed.

Lemma main_maxSize_reads_decimal_witness :
  0 < 800
  /\ (Z.of_nat 800 <= 2 ^ 53)%Z
  /\ main_maxSize (Some (JS.toString 800)) = Z.of_nat 800
  /\ main_maxSize (Some ("-" ++ JS.toString 800)%string) = (- Z.of_nat 800)%Z.
Proof.
  assert (H : 0 < 800) by lia.
  assert (B : (Z.of_nat 800 <= 2 ^ 53)%Z) by (vm_compute; discriminate).
  split; [exact H|]. split; [exact B|].
  exact (main_maxSize_reads_decimal 800 H B).
Defined.

(** Above 2^53 the ceiling is the double nearest to the numeral: odd
    numbers are not doubles there, and a tie goes to the even
    significand. *)
Example main_maxSize_rounds_to_double :
  main_maxSize (Some "9007199254740993") = 9007199254740992%Z
  /\ main_maxSize (Some "9007199254740995") = 9007199254740996%Z
  /\ main_maxSize (Some "18014398509481987") = 18014398509481988%Z.
Proof. repeat split. Qed.

Lemma length_append (a b : string) :
  String.length (a ++ b) = String.length a + String.length b.
Proof. induction a as [|x a IH]; simpl; [reflexivity | now rewrite IH]. Qed.

Lemma append_cancel_r (a b t : string) : (a ++ t = b ++ t)%string -> a = b.
Proof.
  revert b. induction a as [|x a IH]; intros b H.
  - destruct b as [|y b]; [reflexivity|].
    apply (f_equal String.length) in H. simpl in H.
    rewrite length_append in H. lia.
  - destruct b as [|y b].
    + apply (f_equal String.length) in H. simpl in H.
      rewrite length_append in H. lia.
    + simpl in H. injection H as -> H. f_equal. now apply IH.
Qed.

Lemma append_cancel_l (a x y : string) : (a ++ x = a ++ y)%string -> x = y.
Proof. induction a as [|c a IH]; simpl; intros H; [exact H | injection H as H; auto]. Qed.

Lemma toString_injective (n m : nat) : JS.toString n = JS.toString m -> n = m.
Proof.
  intros H. pose proof (parseUnsigned_toString n "" I) as Pn.
  pose proof (parseUnsigned_toString m "" I) as Pm.
  rewrite H, Pm in Pn. injection Pn as Pn. lia.
Qed.

(** X17.  Entries at different positions get different separator lines
    and different table lines, whatever their paths: a number in the
    document names one entry only. *)
Theorem numbering_is_injective (i j : nat) (p q : string) :
  i <> j ->
  sectionHeader (i + 1) <> sectionHeader (j + 1)
  /\ tocLine i p <> tocLine j q.
Proof.
  intros Hij. split; intros H; apply Hij.
  - unfold sectionHeader in H.
    assert (E : JS.toString (i + 1) = JS.toString (j + 1)).
    { apply (append_cancel_r _ _ ("]" ++ JS.LF)%string).
      apply (append_cancel_l "----["). exact H. }
    apply toString_injective in E. lia.
  - unfold tocLine in H.
    pose proof (parseUnsigned_toString (i + 1) (". " ++ p ++ JS.LF) eq_refl) as Pi.
    pose proof (parseUnsigned_toString (j + 1) (". " ++ q ++ JS.LF) eq_refl) as Pj.
    rewrite H, Pj in Pi. injection Pi as Pi. lia.
Qed.

Lemma numbering_is_injective_witness :
  9 <> 10
  /\ sectionHeader (9 + 1) <> sectionHeader (10 + 1)
  /\ tocLine 9 "a" <> tocLine 10 "a".
Proof.
  assert (H : 9 <> 10) by discriminate.
  split; [exact H | exact (numbering_is_injective 9 10 "a" "a" H)].
Defined.

(** ** Configuration, progress flag and preamble *)

Section ConfigurationFacts.

Variable accessible : string -> bool.
Variable readFile : string -> option string.
Variable JSON_parse : string -> option JSON.
Variable path_resolve : string -> string -> string.
Variable path_join : string -> string -> string.
Variable cwd : string.

Lemma loadFile_run (p : string) (w : World) :
  tryCatch
    (raw <- fsp_readFile readFile p ;;
     config <- JSON_parseM JSON_parse raw ;;
     ret config)
    (fun _ => processExit 1) w
  = (match parsedFile readFile JSON_parse p with Some c => Ok c | None => Exit 1 end, w).
Proof.
  unfold parsedFile. cbv [tryCatch bind fsp_readFile JSON_parseM ret throw processExit].
  destruct (readFile p) as [raw|]; [|reflexivity].
  now destruct (JSON_parse raw).
Qed.

Lemma fileExists_run (p : string) (w : World) :
  fileExists accessible p w = (Ok (accessible p), w).
Proof. unfold fileExists, tryCatch. now destruct (accessible p). Qed.

Lemma packageConfig_run (p : string) (w : World) :
  exists c,
    tryCatch
      (rawPkg <- fsp_readFile readFile p ;;
       pkg <- JSON_parseM JSON_parse rawPkg ;;
       field <- getProperty pkg "repo2prompt" ;;
       match field with
       | Some v => if isTruthyObject field then ret v else ret (JObject [])
       | None => ret (JObject [])
       end)
      (fun _ => ret (JObject [])) w
    = (Ok c, w)
    /\ c <> JNull.
Proof.
  cbv [tryCatch bind fsp_readFile JSON_parseM ret throw].
  destruct (readFile p) as [raw|]; [|eexists; split; [reflexivity | discriminate]].
  destruct (JSON_parse raw) as [pkg|]; [|eexists; split; [reflexivity | discriminate]].
  destruct pkg as [|b|n|s|items|fields]; cbv [getProperty ret throw];
    try (eexists; split; [reflexivity | discriminate]).
  destruct (lookupField fields "repo2prompt") as [[|b|n|s|items|fs']|];
    cbv [isTruthyObject]; eexists; split; try reflexivity; discriminate.
Qed.

(** X18.  [loadConfig] never throws and leaves the output, the warnings
    and the progress bar as they were: it returns a configuration or
    exits with code 1.  It exits exactly when the file
    that decides (the explicit one if a path is given, else
    [.repo2prompt.json] if it exists) cannot be read or parsed; whatever
    is wrong with [package.json] never makes it exit. *)
Theorem loadConfig_outcomes (repoRoot : string) (explicitConfigPath : option string)
        (w : World) :
  exists r,
    loadConfig accessible readFile JSON_parse path_resolve path_join cwd
               repoRoot explicitConfigPath w = (r, w)
    /\ ((exists c, r = Ok c) \/ r = Exit 1)
    /\ (r = Exit 1 <->
        match orString explicitConfigPath None with
        | Some explicit => parsedFile readFile JSON_parse (path_resolve cwd explicit) = None
        | None =>
            accessible (path_join repoRoot ".repo2prompt.json") = true
            /\ parsedFile readFile JSON_parse (path_join repoRoot ".repo2prompt.json") = None
        end).
Proof.
  unfold loadConfig.
  destruct (orString explicitConfigPath None) as [explicit|].
  - rewrite loadFile_run. eexists. split; [reflexivity|].
    destruct (parsedFile readFile JSON_parse (path_resolve cwd explicit)) as [c|].
    + split; [left; now exists c|]. split; discriminate.
    + split; [now right|]. split; reflexivity.
  - rewrite (bind_Ok _ _ _ _ _ (fileExists_run _ w)).
    destruct (accessible (path_join repoRoot ".repo2prompt.json")).
    + rewrite loadFile_run. eexists. split; [reflexivity|].
      destruct (parsedFile readFile JSON_parse (path_join repoRoot ".repo2prompt.json")) as [c|].
      * split; [left; now exists c|]. split; [discriminate | intros [_ H]; discriminate H].
      * split; [now right|]. split; auto.
    + rewrite (bind_Ok _ _ _ _ _ (fileExists_run _ w)).
      destruct (accessible (path_join repoRoot "package.json")).
      * destruct (packageConfig_run (path_join repoRoot "package.json") w) as (c & E & _).
        rewrite E. eexists. split; [reflexivity|].
        split; [left; now exists c|]. split; [discriminate | intros [H _]; discriminate H].
      * eexists. split; [reflexivity|].
        split; [left; now eexists|]. split; [discriminate | intros [H _]; discriminate H].
Qed.

(** X19.  A configuration that comes from [package.json], or the empty
    default, is never [null]; so with no explicit file and no
    [.repo2prompt.json], reading the progress flag from it cannot throw,
    and [main] gets its flag. *)
Theorem loadConfig_then_showProgress
        (repoRoot : string) (explicitConfigPath : option string)
        (opts_progress debugMode : bool) (w : World) :
  orString explicitConfigPath None = None ->
  accessible (path_join repoRoot ".repo2prompt.json") = false ->
  exists config flag,
    loadConfig accessible readFile JSON_parse path_resolve path_join cwd
               repoRoot explicitConfigPath w = (Ok config, w)
    /\ config <> JNull
    /\ main_showProgress opts_progress debugMode config w = (Ok flag, w).
Proof.
  intros He Hrc. unfold loadConfig. rewrite He.
  rewrite (bind_Ok _ _ _ _ _ (fileExists_run _ w)), Hrc.
  rewrite (bind_Ok _ _ _ _ _ (fileExists_run _ w)).
  assert (F : forall config, config <> JNull ->
              exists flag, main_showProgress opts_progress debugMode config w = (Ok flag, w)).
  { intros config N. unfold main_showProgress.
    destruct opts_progress; cbv [bind ret]; [|destruct debugMode; now eexists].
    destruct config as [|b|n|s|items|fields]; [contradiction| ..];
      cbv [getProperty ret]; try (destruct debugMode; now eexists).
    destruct (lookupField fields "showProgress") as [[|b|n|s|items|fs']|];
      destruct debugMode; now eexists. }
  destruct (accessible (path_join repoRoot "package.json")).
  - destruct (packageConfig_run (path_join repoRoot "package.json") w) as (c & E & N).
    rewrite E. destruct (F c N) as [flag Hf]. now exists c, flag.
  - destruct (F (JObject []) ltac:(discriminate)) as [flag Hf].
    now exists (JObject []), flag.
Qed.

(** X20.  An explicit configuration file whose content parses to [null]
    is accepted by [loadConfig]; [main] then throws a TypeError when it
    reads the progress flag from it, with or without [--debug]. *)
Theorem loadConfig_null_breaks_showProgress
        (repoRoot explicit : string) (debugMode : bool) (w : World) :
  JS.truthy explicit = true ->
  parsedFile readFile JSON_parse (path_resolve cwd explicit) = Some JNull ->
  loadConfig accessible readFile JSON_parse path_resolve path_join cwd
             repoRoot (Some explicit) w = (Ok JNull, w)
  /\ exists e, main_showProgress true debugMode JNull w = (Throw e, w).
Proof.
  intros T P. split.
  - unfold loadConfig, orString. rewrite T, loadFile_run, P. reflexivity.
  - eexists. reflexivity.
Qed.

End ConfigurationFacts.

(** X21.  With a configuration that is not [null] the progress flag is
    always computed, and it is on exactly when [--no-progress] and
    [--debug] are both absent and the configuration does not hold
    [showProgress: false]: the file can switch the bar off, never on. *)
Theorem main_showProgress_decides
        (opts_progress debugMode : bool) (config : JSON) (w : World) :
  config <> JNull ->
  exists flag,
    main_showProgress opts_progress debugMode config w = (Ok flag, w)
    /\ (flag = true <->
        opts_progress = true /\ debugMode = false
        /\ forall fields, config = JObject fields ->
                          lookupField fields "showProgress" <> Some (JBool false)).
Proof.
  intros N. unfold main_showProgress.
  destruct opts_progress; cbv [bind ret].
  2:{ destruct debugMode; eexists; (split; [reflexivity|]);
      split; try discriminate; intros (H & _); discriminate H. }
  destruct config as [|b|n|s|items|fields]; [contradiction| ..]; cbv [getProperty ret].
  1-4: destruct debugMode; eexists; (split; [reflexivity|]);
       (split;
        [ intros F;
          first [ discriminate F
                | split; [reflexivity | split; [reflexivity | intros fields' E; discriminate E]] ]
        | intros (_ & H & _); first [discriminate H | reflexivity] ]).
  destruct (lookupField fields "showProgress") as [[|[|]|n|s|items|fs']|] eqn:L;
    destruct debugMode; eexists; (split; [reflexivity|]);
    (split;
     [ intros F;
       first [ discriminate F
             | split; [reflexivity | split; [reflexivity|]];
               intros fields' E; injection E as <-; rewrite L; discriminate ]
     | intros (_ & H & G);
       first [ discriminate H | reflexivity | exfalso; exact (G fields eq_refl L) ] ]).
Qed.

Lemma main_showProgress_decides_witness :
  JObject [("showProgress", JBool false)] <> JNull
  /\ exists flag,
      main_showProgress true false (JObject [("showProgress", JBool false)]) emptyWorld
      = (Ok flag, emptyWorld)
      /\ (flag = true <->
          true = true /\ false = false
          /\ forall fields, JObject [("showProgress", JBool false)] = JObject fields ->
                            lookupField fields "showProgress" <> Some (JBool false)).
Proof.
  assert (N : JObject [("showProgress", JBool false)] <> JNull) by discriminate.
  split; [exact N|].
  exact (main_showProgress_decides true false _ emptyWorld N).
Defined.

Lemma endsWith_snoc (c : ascii) (s : string) :
  JS_endsWith c (s ++ String c EmptyString) = true.
Proof.
  induction s as [|a s IH]; simpl.
  - apply Ascii.eqb_refl.
  - destruct s; simpl in *; exact IH.
Qed.

Lemma readPreamble_run (readFile : string -> option string) (p : string) (w : World) :
  exists r,
    readPreamble readFile p w = (r, w)
    /\ (r = Exit 1 \/ exists text, r = Ok text /\ JS_endsWith JS.LFc text = true).
Proof.
  unfold readPreamble. cbv [tryCatch bind fsp_readFile ret throw processExit].
  destruct (readFile p) as [text|].
  - destruct (JS_endsWith JS.LFc text) eqn:E; cbv [negb]; eexists; (split; [reflexivity|]);
      right; eexists; (split; [reflexivity|]); [exact E | apply endsWith_snoc].
  - eexists. split; [reflexivity | now left].
Qed.

(** X22.  The preamble [main] puts at the head of the document always
    ends with a line feed, whichever file it comes from; the only other
    outcome is exit code 1, when the preamble file cannot be read, and
    nothing is written while it is loaded. *)
Theorem main_preamble_ends_with_newline
        (readFile : string -> option string) (path_resolve : string -> string -> string)
        (cwd defaultPreamble repoRoot : string)
        (opts_preamble config_preamble : option string) (w : World) :
  JS_endsWith JS.LFc defaultPreamble = true ->
  exists r,
    main_preamble readFile path_resolve cwd defaultPreamble
                  repoRoot opts_preamble config_preamble w = (r, w)
    /\ (r = Exit 1 \/ exists text, r = Ok text /\ JS_endsWith JS.LFc text = true).
Proof.
  intros D. unfold main_preamble.
  destruct (orString (main_preambleFile opts_preamble config_preamble) None).
  - apply readPreamble_run.
  - destruct (orString config_preamble None).
    + apply readPreamble_run.
    + eexists. split; [reflexivity|]. right. now exists defaultPreamble.
Qed.

(** X23.  The preamble does not depend on the repository root: a
    preamble named by the configuration is resolved against the working
    directory like one named on the command line, and the branch of
    [main] that resolves it against the repository is never taken. *)
Theorem main_preamble_resolved_against_cwd
        (readFile : string -> option string) (path_resolve : string -> string -> string)
        (cwd defaultPreamble repoRoot : string)
        (opts_preamble config_preamble : option string) :
  main_preamble readFile path_resolve cwd defaultPreamble
                repoRoot opts_preamble config_preamble
  = match main_preambleFile opts_preamble config_preamble with
    | Some preambleFile => readPreamble readFile (path_resolve cwd preambleFile)
    | None => ret defaultPreamble
    end.
Proof.
  unfold main_preamble, main_preambleFile, orString.
  destruct opts_preamble as [o|]; [destruct (JS.truthy o) eqn:To|];
    try rewrite To; try reflexivity;
    (destruct config_preamble as [c|]; [destruct (JS.truthy c) eqn:Tc|];
     try rewrite Tc; reflexivity).
Qed.

Lemma loadConfig_then_showProgress_witness :
  orString None None = None
  /\ diskAccessible (joinPlain "/repo" ".repo2prompt.json") = false
  /\ exists config flag,
      loadConfig diskAccessible diskReadFile diskParse diskResolve joinPlain "/"
                 "/repo" None emptyWorld = (Ok config, emptyWorld)
      /\ config <> JNull
      /\ main_showProgress true false config emptyWorld = (Ok flag, emptyWorld).
Proof.
  assert (H1 : orString None None = None) by reflexivity.
  assert (H2 : diskAccessible (joinPlain "/repo" ".repo2prompt.json") = false)
    by reflexivity.
  split; [exact H1|]. split; [exact H2|].
  exact (loadConfig_then_showProgress diskAccessible diskReadFile diskParse diskResolve
           joinPlain "/" "/repo" None true false emptyWorld H1 H2).
Defined.

Lemma loadConfig_null_breaks_showProgress_witness :
  JS.truthy "/null.json" = true
  /\ parsedFile diskReadFile diskParse (diskResolve "/" "/null.json") = Some JNull
  /\ loadConfig diskAccessible diskReadFile diskParse diskResolve joinPlain "/"
                "/repo" (Some "/null.json") emptyWorld = (Ok JNull, emptyWorld)
  /\ exists e, main_showProgress true true JNull emptyWorld = (Throw e, emptyWorld).
Proof.
  assert (H1 : JS.truthy "/null.json" = true) by reflexivity.
  assert (H2 : parsedFile diskReadFile diskParse (diskResolve "/" "/null.json")
               = Some JNull) by reflexivity.
  split; [exact H1|]. split; [exact H2|].
  exact (loadConfig_null_breaks_showProgress diskAccessible diskReadFile diskParse
           diskResolve joinPlain "/" "/repo" "/null.json" true emptyWorld H1 H2).
Defined.

Lemma main_preamble_ends_with_newline_witness :
  JS_endsWith JS.LFc ("---" ++ JS.LF ++ JS.LF) = true
  /\ exists r,
      main_preamble diskReadFile diskResolve "/" ("---" ++ JS.LF ++ JS.LF)
                    "/repo" None (Some "/null.json") emptyWorld = (r, emptyWorld)
      /\ (r = Exit 1 \/ exists text, r = Ok text /\ JS_endsWith JS.LFc text = true).
Proof.
  assert (H : JS_endsWith JS.LFc ("---" ++ JS.LF ++ JS.LF) = true) by reflexivity.
  split; [exact H|].
  exact (main_preamble_ends_with_newline diskReadFile diskResolve "/" _
           "/repo" None (Some "/null.json") emptyWorld H).
Defined.
